(** * etherscan-contract-fetcher: the EtherscanClient of src/etherscan.js

    A shallow embedding of [EtherscanClient] (chain registry, [getApiKey],
    [validateChainId], [isContract], [fetchContractSource],
    [parseSourceCode], [saveContractFiles]) together with the part of the
    JavaScript host the class relies on: strings as sequences of UTF-16
    code units, JSON values, property reads, truthiness, [JSON.parse],
    [Object.entries], and the POSIX flavour of [path.join]. *)

From Stdlib Require Import List String Ascii ZArith NArith Bool Lia.
From Stdlib Require Decimal.
Import ListNotations.

Local Open Scope N_scope.

(* ================================================================== *)
(** * JavaScript strings *)
(* ================================================================== *)

(** A string is its sequence of UTF-16 code units. *)
Definition jsstring := list N.

Definition ch (a : ascii) : N := N_of_ascii a.

(** [lit s] is the string literal [s]. *)
Definition lit (s : string) : jsstring := map ch (list_ascii_of_string s).

(** [json_lit s] is the literal [s] in which every apostrophe stands for
    a quotation mark (code unit 34), so that JSON text can be written
    down without quoting the quotation marks. *)
Definition json_lit (s : string) : jsstring :=
  map (fun c => if c =? 39 then 34 else c) (lit s).

Fixpoint str_eqb (a b : jsstring) : bool :=
  match a, b with
  | [], [] => true
  | x :: a', y :: b' => (x =? y) && str_eqb a' b'
  | _, _ => false
  end.

(** [String.prototype.startsWith]. *)
Fixpoint startsWith (s p : jsstring) {struct p} : bool :=
  match p, s with
  | [], _ => true
  | y :: p', x :: s' => (x =? y) && startsWith s' p'
  | _ :: _, [] => false
  end.

(** [String.prototype.includes]: [needle] occurs in [s]. *)
Fixpoint includes (s needle : jsstring) : bool :=
  startsWith s needle ||
  match s with
  | [] => false
  | _ :: s' => includes s' needle
  end.

(** [String.prototype.slice(from, to)], negative positions counting from
    the end of the string. *)
Definition slice (s : jsstring) (from to : Z) : jsstring :=
  let len := Z.of_nat (List.length s) in
  let lo := if (from <? 0)%Z then Z.max (len + from) 0 else Z.min from len in
  let hi := if (to <? 0)%Z then Z.max (len + to) 0 else Z.min to len in
  firstn (Z.to_nat (hi - lo)) (skipn (Z.to_nat lo) s).

(** White space and line terminators, as [String.prototype.trim] removes
    them. *)
Definition is_trim_space (c : N) : bool :=
  ((9 <=? c) && (c <=? 13)) || (c =? 32) || (c =? 160) || (c =? 5760)
  || ((8192 <=? c) && (c <=? 8202)) || (c =? 8232) || (c =? 8233)
  || (c =? 8239) || (c =? 8287) || (c =? 12288) || (c =? 65279).

Fixpoint trim_start (s : jsstring) : jsstring :=
  match s with
  | c :: s' => if is_trim_space c then trim_start s' else s
  | [] => []
  end.

Definition trim (s : jsstring) : jsstring :=
  rev (trim_start (rev (trim_start s))).

Definition is_digit (c : N) : bool := (48 <=? c) && (c <=? 57).

Fixpoint uint_digits (u : Decimal.uint) : jsstring :=
  match u with
  | Decimal.Nil => []
  | Decimal.D0 u' => 48 :: uint_digits u'
  | Decimal.D1 u' => 49 :: uint_digits u'
  | Decimal.D2 u' => 50 :: uint_digits u'
  | Decimal.D3 u' => 51 :: uint_digits u'
  | Decimal.D4 u' => 52 :: uint_digits u'
  | Decimal.D5 u' => 53 :: uint_digits u'
  | Decimal.D6 u' => 54 :: uint_digits u'
  | Decimal.D7 u' => 55 :: uint_digits u'
  | Decimal.D8 u' => 56 :: uint_digits u'
  | Decimal.D9 u' => 57 :: uint_digits u'
  end.

(** The decimal numeral of a natural number, as [ToString] prints an
    array index. *)
Definition index_to_string (n : N) : jsstring := uint_digits (N.to_uint n).

Fixpoint digits_value (acc : N) (s : jsstring) : option N :=
  match s with
  | [] => Some acc
  | c :: s' => if is_digit c then digits_value (acc * 10 + (c - 48)) s' else None
  end.

(** A property key is an array index when it is the canonical numeral of
    an integer below [2^32 - 1]. *)
Definition array_index (k : jsstring) : option N :=
  match k with
  | [] => None
  | c :: rest =>
      if (c =? 48) && negb (match rest with [] => true | _ => false end) then None
      else match digits_value 0 k with
           | Some n => if n <? 4294967295 then Some n else None
           | None => None
           end
  end.

(* ================================================================== *)
(** * JavaScript values *)
(* ================================================================== *)

(** A number is kept as the decimal it was written as; [NaN] is the
    result of a failed numeric conversion. *)
Inductive number :=
| NaN
| Dec (neg : bool) (mantissa : N) (exponent : Z).

(** A decimal is read as a binary64 zero when it is at most half the
    smallest subnormal, [2^-1075] (the tie rounds to even). *)
Definition number_is_zero (n : number) : bool :=
  match n with
  | NaN => false
  | Dec _ m e =>
      (m =? 0) ||
      ((e <? 0)%Z && (Z.of_N m * 2 ^ 1075 <=? 10 ^ (- e))%Z)
  end.

#[warnings="-register-all"]
Inductive value :=
| VUndefined
| VNull
| VBool (b : bool)
| VNum (n : number)
| VStr (s : jsstring)
| VArr (elems : list value)
| VObj (props : list (jsstring * value)).

(** The properties of an object are kept in creation order, one pair per
    key. *)
Definition props := list (jsstring * value).

Definition num_of_N (n : N) : value := VNum (Dec false n 0).

(** [ToBoolean]. *)
Definition truthy (v : value) : bool :=
  match v with
  | VUndefined | VNull => false
  | VBool b => b
  | VNum NaN => false
  | VNum n => negb (number_is_zero n)
  | VStr s => match s with [] => false | _ => true end
  | VArr _ | VObj _ => true
  end.

(** [a || b]. *)
Definition or_else (a b : value) : value := if truthy a then a else b.

(** [v === s] for a string [s]. *)
Definition is_string (v : value) (s : jsstring) : bool :=
  match v with
  | VStr t => str_eqb t s
  | _ => false
  end.

Fixpoint lookup (k : jsstring) (ps : props) : option value :=
  match ps with
  | [] => None
  | (k', v) :: ps' => if str_eqb k k' then Some v else lookup k ps'
  end.

(** Defining a data property keeps the place of a key that exists and
    appends a new one. *)
Fixpoint set_prop (ps : props) (k : jsstring) (v : value) : props :=
  match ps with
  | [] => [(k, v)]
  | (k', v') :: ps' =>
      if str_eqb k k' then (k', v) :: ps' else (k', v') :: set_prop ps' k v
  end.

(* ================================================================== *)
(** * Completions: normal results and thrown exceptions *)
(* ================================================================== *)

(** The message templates of the [new Error(...)] expressions of
    etherscan.js, each with the values interpolated into it. *)
Inductive message :=
| Unable_to_read_API_key (cause : jsstring)
| Unsupported_chain_ID (chainId : Z)
| Invalid_API_key
| Rate_limit_exceeded
| API_Error (errorMsg : value)
| No_contract_found
| EOA_address (address : jsstring)
| Unverified_contract (address : jsstring)
| HTTP_Error (status statusText : value).

(** What a [throw] carries: the host's own errors, a rejected request
    (with the status and status text when the server answered), a
    rejected [fs] promise, or an [Error] made by etherscan.js. *)
Inductive exn :=
| SyntaxError              (* JSON.parse *)
| TypeError                (* property of null or undefined, call of a non-function *)
| AxiosError (response : option (value * value))
| FsError (cause : jsstring)
| Error (m : message).

Inductive completion (A : Type) :=
| Normal (a : A)
| Abrupt (e : exn).
Arguments Normal {A} a.
Arguments Abrupt {A} e.

Definition cbind {A B} (c : completion A) (k : A -> completion B) : completion B :=
  match c with
  | Normal a => k a
  | Abrupt e => Abrupt e
  end.

(** [try { c } catch (error) { h error }]. *)
Definition try_catch {A} (c : completion A) (h : exn -> completion A) : completion A :=
  match c with
  | Normal a => Normal a
  | Abrupt e => h e
  end.

Declare Scope completion_scope.
Delimit Scope completion_scope with completion.
Notation "x <- c ;; k" := (cbind c (fun x => k))
  (at level 61, c at next level, right associativity) : completion_scope.

(** [v.k] and [v[k]] for the keys etherscan.js reads (none of which is
    inherited from a prototype): own properties of an object, [length]
    and the indexed elements of an array or a string. *)
Definition get (v : value) (k : jsstring) : completion value :=
  match v with
  | VUndefined | VNull => Abrupt TypeError
  | VBool _ | VNum _ => Normal VUndefined
  | VObj ps => Normal (match lookup k ps with Some x => x | None => VUndefined end)
  | VArr l =>
      if str_eqb k (lit "length") then Normal (num_of_N (N.of_nat (List.length l)))
      else match array_index k with
           | Some i => Normal (nth (N.to_nat i) l VUndefined)
           | None => Normal VUndefined
           end
  | VStr s =>
      if str_eqb k (lit "length") then Normal (num_of_N (N.of_nat (List.length s)))
      else match array_index k with
           | Some i => Normal (match nth_error s (N.to_nat i) with
                               | Some c => VStr [c]
                               | None => VUndefined
                               end)
           | None => Normal VUndefined
           end
  end.

(** ** Object.entries *)

Fixpoint insert_by_index (x : N * (jsstring * value)) (l : list (N * (jsstring * value)))
  : list (N * (jsstring * value)) :=
  match l with
  | [] => [x]
  | y :: l' => if fst x <? fst y then x :: l else y :: insert_by_index x l'
  end.

Fixpoint index_props (ps : props) : list (N * (jsstring * value)) :=
  match ps with
  | [] => []
  | (k, v) :: ps' =>
      match array_index k with
      | Some i => insert_by_index (i, (k, v)) (index_props ps')
      | None => index_props ps'
      end
  end.

Definition named_props (ps : props) : props :=
  filter (fun kv => match array_index (fst kv) with Some _ => false | None => true end) ps.

(** Own property keys are listed with the array indices first, in
    ascending order, and the other keys after them in creation order. *)
Definition own_entries (ps : props) : props :=
  map snd (index_props ps) ++ named_props ps.

Fixpoint indexed {A} (f : A -> value) (i : N) (l : list A) : props :=
  match l with
  | [] => []
  | x :: l' => (index_to_string i, f x) :: indexed f (N.succ i) l'
  end.

Definition Object_entries (v : value) : completion props :=
  match v with
  | VUndefined | VNull => Abrupt TypeError
  | VBool _ | VNum _ => Normal []
  | VStr s => Normal (indexed (fun c => VStr [c]) 0 s)
  | VArr l => Normal (indexed (fun x => x) 0 l)
  | VObj ps => Normal (own_entries ps)
  end.

(* ================================================================== *)
(** * JSON.parse *)
(* ================================================================== *)

(** The text is scanned one code unit at a time into tokens, and the
    tokens drive a stack of the containers that are still open.  Both
    passes are folds, so the parser is total without a recursion bound. *)

Inductive token :=
| TLBrace | TRBrace | TLBracket | TRBracket | TColon | TComma
| TString (s : jsstring)
| TNumber (n : number)
| TTrue | TFalse | TNull.

Inductive numphase :=
| NMinus | NZero | NInt | NDot | NFrac | NExp | NExpSign | NExpDigits.

Record numacc := {
  n_neg : bool;      (* a leading minus sign *)
  n_mant : N;        (* integer and fraction digits, read as one numeral *)
  n_scale : Z;       (* number of fraction digits *)
  n_eneg : bool;     (* a minus sign in the exponent *)
  n_exp : N          (* the exponent digits *)
}.

Definition numacc_value (a : numacc) : number :=
  Dec (n_neg a) (n_mant a)
      ((if n_eneg a then - Z.of_N (n_exp a) else Z.of_N (n_exp a)) - n_scale a)%Z.

Inductive lstate :=
| LIdle
| LString (acc : jsstring)                    (* inside a string; [acc] is reversed *)
| LEscape (acc : jsstring)                    (* after a backslash *)
| LUnicode (acc : jsstring) (seen : nat) (code : N)  (* inside \uXXXX *)
| LNumber (ph : numphase) (a : numacc)
| LLiteral (rest : jsstring) (t : token).     (* inside true, false or null *)

Definition is_json_space (c : N) : bool :=
  (c =? 32) || (c =? 9) || (c =? 10) || (c =? 13).

Definition hex_value (c : N) : option N :=
  if is_digit c then Some (c - 48)
  else if (97 <=? c) && (c <=? 102) then Some (c - 87)
  else if (65 <=? c) && (c <=? 70) then Some (c - 55)
  else None.

Definition lex_idle (c : N) : option (lstate * list token) :=
  if is_json_space c then Some (LIdle, [])
  else if c =? ch "{" then Some (LIdle, [TLBrace])
  else if c =? ch "}" then Some (LIdle, [TRBrace])
  else if c =? ch "[" then Some (LIdle, [TLBracket])
  else if c =? ch "]" then Some (LIdle, [TRBracket])
  else if c =? ch ":" then Some (LIdle, [TColon])
  else if c =? ch "," then Some (LIdle, [TComma])
  else if c =? 34 then Some (LString [], [])
  else if c =? ch "-" then Some (LNumber NMinus (Build_numacc true 0 0 false 0), [])
  else if c =? ch "0" then Some (LNumber NZero (Build_numacc false 0 0 false 0), [])
  else if is_digit c then Some (LNumber NInt (Build_numacc false (c - 48) 0 false 0), [])
  else if c =? ch "t" then Some (LLiteral (lit "rue") TTrue, [])
  else if c =? ch "f" then Some (LLiteral (lit "alse") TFalse, [])
  else if c =? ch "n" then Some (LLiteral (lit "ull") TNull, [])
  else None.

Definition is_e (c : N) : bool := (c =? ch "e") || (c =? ch "E").

Definition push_digit (a : numacc) (c : N) (frac : bool) : numacc :=
  Build_numacc (n_neg a) (n_mant a * 10 + (c - 48))
               (if frac then n_scale a + 1 else n_scale a)%Z (n_eneg a) (n_exp a).

Definition push_exp_digit (a : numacc) (c : N) : numacc :=
  Build_numacc (n_neg a) (n_mant a) (n_scale a) (n_eneg a) (n_exp a * 10 + (c - 48)).

Definition set_exp_neg (a : numacc) : numacc :=
  Build_numacc (n_neg a) (n_mant a) (n_scale a) true (n_exp a).

(** The number ends before [c], which is then read as the start of the
    next token. *)
Definition end_number (a : numacc) (c : N) : option (lstate * list token) :=
  match lex_idle c with
  | Some (st, ts) => Some (st, TNumber (numacc_value a) :: ts)
  | None => None
  end.

Definition lex_number (ph : numphase) (a : numacc) (c : N) : option (lstate * list token) :=
  match ph with
  | NMinus =>
      if c =? ch "0" then Some (LNumber NZero a, [])
      else if is_digit c then Some (LNumber NInt (push_digit a c false), [])
      else None
  | NZero =>
      if c =? ch "." then Some (LNumber NDot a, [])
      else if is_e c then Some (LNumber NExp a, [])
      else end_number a c
  | NInt =>
      if is_digit c then Some (LNumber NInt (push_digit a c false), [])
      else if c =? ch "." then Some (LNumber NDot a, [])
      else if is_e c then Some (LNumber NExp a, [])
      else end_number a c
  | NDot =>
      if is_digit c then Some (LNumber NFrac (push_digit a c true), []) else None
  | NFrac =>
      if is_digit c then Some (LNumber NFrac (push_digit a c true), [])
      else if is_e c then Some (LNumber NExp a, [])
      else end_number a c
  | NExp =>
      if c =? ch "+" then Some (LNumber NExpSign a, [])
      else if c =? ch "-" then Some (LNumber NExpSign (set_exp_neg a), [])
      else if is_digit c then Some (LNumber NExpDigits (push_exp_digit a c), [])
      else None
  | NExpSign =>
      if is_digit c then Some (LNumber NExpDigits (push_exp_digit a c), []) else None
  | NExpDigits =>
      if is_digit c then Some (LNumber NExpDigits (push_exp_digit a c), [])
      else end_number a c
  end.

Definition lex_escape (acc : jsstring) (c : N) : option (lstate * list token) :=
  if (c =? 34) || (c =? ch "\") || (c =? ch "/") then Some (LString (c :: acc), [])
  else if c =? ch "b" then Some (LString (8 :: acc), [])
  else if c =? ch "f" then Some (LString (12 :: acc), [])
  else if c =? ch "n" then Some (LString (10 :: acc), [])
  else if c =? ch "r" then Some (LString (13 :: acc), [])
  else if c =? ch "t" then Some (LString (9 :: acc), [])
  else if c =? ch "u" then Some (LUnicode acc 0 0, [])
  else None.

Definition lex_step (st : lstate) (c : N) : option (lstate * list token) :=
  match st with
  | LIdle => lex_idle c
  | LString acc =>
      if c =? 34 then Some (LIdle, [TString (rev acc)])
      else if c =? ch "\" then Some (LEscape acc, [])
      else if c <? 32 then None
      else Some (LString (c :: acc), [])
  | LEscape acc => lex_escape acc c
  | LUnicode acc seen code =>
      match hex_value c with
      | Some d =>
          match seen with
          | 3%nat => Some (LString ((code * 16 + d) :: acc), [])
          | _ => Some (LUnicode acc (S seen) (code * 16 + d), [])
          end
      | None => None
      end
  | LNumber ph a => lex_number ph a c
  | LLiteral rest t =>
      match rest with
      | [] => None
      | x :: rest' =>
          if c =? x then
            match rest' with
            | [] => Some (LIdle, [t])
            | _ => Some (LLiteral rest' t, [])
            end
          else None
      end
  end.

Definition lex_end (st : lstate) : option (list token) :=
  match st with
  | LIdle => Some []
  | LNumber NZero a | LNumber NInt a | LNumber NFrac a | LNumber NExpDigits a =>
      Some [TNumber (numacc_value a)]
  | _ => None
  end.

Fixpoint lex (st : lstate) (s : jsstring) : option (list token) :=
  match s with
  | [] => lex_end st
  | c :: s' =>
      match lex_step st c with
      | Some (st', ts) =>
          match lex st' s' with
          | Some ts' => Some (ts ++ ts')
          | None => None
          end
      | None => None
      end
  end.

(** A container that is still open. *)
Inductive frame :=
| FArr (elems : list value)                 (* reversed *)
| FObj (ps : props)                         (* between members *)
| FMember (ps : props) (key : jsstring).    (* a key and its colon were read *)

Inductive pmode :=
| PValue              (* a value must follow *)
| PArrStart           (* after [: a value or ] *)
| PObjStart           (* after {: a key or } *)
| PKey                (* after a comma in an object *)
| PColon (k : jsstring)
| PAfter              (* after a value in a container: a comma or the end *)
| PDone (v : value).  (* the top-level value is complete *)

Definition pstate := (list frame * pmode)%type.

(** A value is complete: it is the result, or goes into the innermost
    open container. *)
Definition complete (stack : list frame) (v : value) : option pstate :=
  match stack with
  | [] => Some ([], PDone v)
  | FArr es :: st => Some (FArr (v :: es) :: st, PAfter)
  | FMember ps k :: st => Some (FObj (set_prop ps k v) :: st, PAfter)
  | FObj _ :: _ => None
  end.

Definition parse_value (stack : list frame) (t : token) : option pstate :=
  match t with
  | TString s => complete stack (VStr s)
  | TNumber n => complete stack (VNum n)
  | TTrue => complete stack (VBool true)
  | TFalse => complete stack (VBool false)
  | TNull => complete stack VNull
  | TLBracket => Some (FArr [] :: stack, PArrStart)
  | TLBrace => Some (FObj [] :: stack, PObjStart)
  | _ => None
  end.

Definition parse_step (s : pstate) (t : token) : option pstate :=
  let (stack, mode) := s in
  match mode with
  | PValue => parse_value stack t
  | PArrStart =>
      match t, stack with
      | TRBracket, FArr es :: st => complete st (VArr (rev es))
      | _, _ => parse_value stack t
      end
  | PObjStart =>
      match t, stack with
      | TString k, _ => Some (stack, PColon k)
      | TRBrace, FObj ps :: st => complete st (VObj ps)
      | _, _ => None
      end
  | PKey =>
      match t with
      | TString k => Some (stack, PColon k)
      | _ => None
      end
  | PColon k =>
      match t, stack with
      | TColon, FObj ps :: st => Some (FMember ps k :: st, PValue)
      | _, _ => None
      end
  | PAfter =>
      match t, stack with
      | TComma, FArr _ :: _ => Some (stack, PValue)
      | TRBracket, FArr es :: st => complete st (VArr (rev es))
      | TComma, FObj _ :: _ => Some (stack, PKey)
      | TRBrace, FObj ps :: st => complete st (VObj ps)
      | _, _ => None
      end
  | PDone _ => None
  end.

Fixpoint parse_tokens (s : pstate) (ts : list token) : option value :=
  match ts with
  | [] => match snd s with PDone v => Some v | _ => None end
  | t :: ts' =>
      match parse_step s t with
      | Some s' => parse_tokens s' ts'
      | None => None
      end
  end.

(** [JSON.parse(text)]: the value, or a [SyntaxError]. *)
Definition JSON_parse (text : jsstring) : completion value :=
  match lex LIdle text with
  | Some ts =>
      match parse_tokens ([], PValue) ts with
      | Some v => Normal v
      | None => Abrupt SyntaxError
      end
  | None => Abrupt SyntaxError
  end.

(* ================================================================== *)
(** * parseSourceCode *)
(* ================================================================== *)

(** An element of the array [parseSourceCode] returns:
    [{ path: cleanPath, content: ... }]. *)
Record file := { path : jsstring; content : value }.

Definition is_version_char (c : N) : bool := is_digit c || (c =? ch ".").

Fixpoint skip_version (s : jsstring) : jsstring :=
  match s with
  | c :: s' => if is_version_char c then skip_version s' else s
  | [] => []
  end.

(** The match of [/^solc_[\d.]+\//] against [p]: the text after the
    match, when there is one.  The class excludes the slash, so the
    longest run of digits and dots is the only candidate. *)
Definition match_solc_prefix (p : jsstring) : option jsstring :=
  if startsWith p (lit "solc_") then
    let rest := skipn 5 p in
    match rest, skip_version rest with
    | c :: _, d :: after =>
        if is_version_char c && (d =? ch "/") then Some after else None
    | _, _ => None
    end
  else None.

(** [cleanPath]: the path with a wrapper directory like [solc_0.8/]
    removed. *)
Definition clean_path (filePath : jsstring) : jsstring :=
  match match_solc_prefix filePath with
  | Some after => after
  | None => filePath
  end.

(** The body of the [for (const [filePath, content] of Object.entries(...))]
    loops: one [files.push] per entry. *)
Fixpoint push_files (entries : props) (files : list file) : completion (list file) :=
  match entries with
  | [] => Normal files
  | (filePath, source) :: rest =>
      (c <- get source (lit "content") ;;
       push_files rest
         (files ++ [{| path := clean_path filePath;
                       content := or_else c (VStr (lit "")) |}]))%completion
  end.

(** [[{ path: 'Contract.sol', content: sourceCode }]]. *)
Definition single_file (sourceCode : jsstring) : list file :=
  [{| path := lit "Contract.sol"; content := VStr sourceCode |}].

(** The double-brace branch, lines 154-175.  The [console.warn] of the
    [catch] block prints a diagnostic and has no part in the result. *)
Definition parse_multi_file (sourceCode : jsstring) : completion (list file) :=
  try_catch
    (parsed <- JSON_parse (slice sourceCode 1 (-1)) ;;
     s <- get parsed (lit "sources") ;;
     let sources := or_else s (VObj []) in
     entries <- Object_entries sources ;;
     push_files entries [])%completion
    (fun _ => Normal (single_file sourceCode)).

(** The single-brace branch, lines 177-196: [Some files] when the [try]
    block returns, [None] when control leaves it without returning (the
    [catch] block only prints a diagnostic). *)
Definition parse_standard_json (sourceCode : jsstring) : completion (option (list file)) :=
  try_catch
    (parsed <- JSON_parse sourceCode ;;
     language <- get parsed (lit "language") ;;
     if is_string language (lit "Solidity") then
       sources <- get parsed (lit "sources") ;;
       if truthy sources then
         entries <- Object_entries sources ;;
         files <- push_files entries [] ;;
         Normal (Some files)
       else Normal None
     else Normal None)%completion
    (fun _ => Normal None).

Definition parseSourceCode (sourceCode : jsstring) : completion (list file) :=
  if startsWith sourceCode (lit "{{") then parse_multi_file sourceCode
  else
    (returned <- (if startsWith sourceCode (lit "{")
                  then parse_standard_json sourceCode
                  else Normal None) ;;
     match returned with
     | Some files => Normal files
     | None => Normal (single_file sourceCode)
     end)%completion.

(* ================================================================== *)
(** * The asynchronous part: effects and their traces *)
(* ================================================================== *)

(** The settled state of an [fs] promise. *)
Inductive fs_result (A : Type) :=
| FsOk (a : A)
| FsFail (cause : jsstring).
Arguments FsOk {A} a.
Arguments FsFail {A} cause.

(** The [params] of an [axios.get(API_V2_ENDPOINT, { params })] call. *)
Record request := {
  chainid : Z;
  module : jsstring;
  action : jsstring;
  address : jsstring;
  tag : option jsstring;
  apikey : value
}.

(** What [fs.writeFile] is given to write. *)
Inductive file_data :=
| Data (v : value)              (* the value itself *)
| Json_stringify (v : value).   (* the text JSON.stringify(v, null, 2) *)

(** An [async] method is a tree of awaited operations.  Each node is one
    request to the outside and continues with its settled result:
    - [ReadKeyFile]: [fs.readFile(path.join(os.homedir(), '.etherscankey'), 'utf-8')];
    - [HttpGet]: [axios.get(API_V2_ENDPOINT, { params })], fulfilled with
      [response.data] or rejected;
    - [Mkdir]: [fs.mkdir(p, { recursive: true })];
    - [WriteFile]: [fs.writeFile(p, data, 'utf-8')]. *)
Inductive prog (A : Type) :=
| Ret (a : A)
| Throw (e : exn)
| ReadKeyFile (k : fs_result jsstring -> prog A)
| HttpGet (r : request) (k : completion value -> prog A)
| Mkdir (p : jsstring) (k : fs_result unit -> prog A)
| WriteFile (p : jsstring) (d : file_data) (k : fs_result unit -> prog A).
Arguments Ret {A} a.
Arguments Throw {A} e.
Arguments ReadKeyFile {A} k.
Arguments HttpGet {A} r k.
Arguments Mkdir {A} p k.
Arguments WriteFile {A} p d k.

Fixpoint bind {A B} (p : prog A) (f : A -> prog B) : prog B :=
  match p with
  | Ret a => f a
  | Throw e => Throw e
  | ReadKeyFile k => ReadKeyFile (fun r => bind (k r) f)
  | HttpGet q k => HttpGet q (fun r => bind (k r) f)
  | Mkdir d k => Mkdir d (fun r => bind (k r) f)
  | WriteFile d x k => WriteFile d x (fun r => bind (k r) f)
  end.

(** [try { p } catch (error) { h error }] around awaited code. *)
Fixpoint catch {A} (p : prog A) (h : exn -> prog A) : prog A :=
  match p with
  | Ret a => Ret a
  | Throw e => h e
  | ReadKeyFile k => ReadKeyFile (fun r => catch (k r) h)
  | HttpGet q k => HttpGet q (fun r => catch (k r) h)
  | Mkdir d k => Mkdir d (fun r => catch (k r) h)
  | WriteFile d x k => WriteFile d x (fun r => catch (k r) h)
  end.

(** Synchronous code inside an [async] method. *)
Definition lift {A} (c : completion A) : prog A :=
  match c with
  | Normal a => Ret a
  | Abrupt e => Throw e
  end.

Declare Scope prog_scope.
Delimit Scope prog_scope with prog.
Notation "x <- c ;; k" := (bind c (fun x => k))
  (at level 61, c at next level, right associativity) : prog_scope.
Notation "c ;; k" := (bind c (fun _ => k))
  (at level 61, right associativity) : prog_scope.

Definition axios_get (q : request) : prog value :=
  HttpGet q (fun r => lift r).

Definition fs_await (r : fs_result unit) : prog unit :=
  match r with
  | FsOk _ => Ret tt
  | FsFail cause => Throw (FsError cause)
  end.

Definition fs_mkdir (p : jsstring) : prog unit := Mkdir p fs_await.

(** [Buffer.from(chunk, 'utf-8')] returns a buffer and does not throw:
    for a string; for an array (its elements taken as bytes); and for an
    object whose own [valueOf] is the empty string, or whose own
    [valueOf] is missing or falsy and which has a [length] or is of the
    form [{ type: 'Buffer', data: [...] }].  A truthy own [valueOf] is
    called and is no function; a number, a boolean and null are
    refused.  Both failures are TypeErrors. *)
Definition buffer_from_accepts (chunk : value) : bool :=
  match chunk with
  | VStr _ | VArr _ => true
  | VObj ps =>
      let array_like :=
        match lookup (lit "length") ps with
        | Some _ => true
        | None =>
            match lookup (lit "type") ps, lookup (lit "data") ps with
            | Some type, Some (VArr _) => is_string type (lit "Buffer")
            | _, _ => false
            end
        end in
      match lookup (lit "valueOf") ps with
      | Some (VStr []) => true
      | Some valueOf => if truthy valueOf then false else array_like
      | None => array_like
      end
  | _ => false
  end.

(** [fs.writeFile(p, data, 'utf-8')] of [fs/promises] looks at the type
    of [data] before it touches the disk:
    - a string is written; so is the text of [JSON.stringify], which is
      a string for every object;
    - an array is iterable: the file is opened and the elements are
      written one after the other, each through [Buffer.from], which
      throws a TypeError at the first element it refuses;
    - a number, a boolean, null, undefined and an object that is no
      array are rejected with a TypeError (ERR_INVALID_ARG_TYPE), and
      the disk is not asked at all. *)
Definition fs_writeFile (p : jsstring) (d : file_data) : prog unit :=
  match d with
  | Json_stringify _ | Data (VStr _) => WriteFile p d fs_await
  | Data (VArr chunks) =>
      WriteFile p d (fun r =>
        match r with
        | FsOk _ => if forallb buffer_from_accepts chunks then Ret tt else Throw TypeError
        | FsFail cause => Throw (FsError cause)
        end)
  | Data _ => Throw TypeError
  end.

(** ** Running a program against the outside world *)

Inductive event :=
| EReadKeyFile
| EHttpGet (q : request)
| EMkdir (p : jsstring)
| EWriteFile (p : jsstring) (d : file_data).

(** The world settles every request; its answers may depend on the
    number of requests made before. *)
Record world := {
  key_file : nat -> fs_result jsstring;
  http : nat -> request -> completion value;
  mkdir : nat -> jsstring -> fs_result unit;
  write_file : nat -> jsstring -> file_data -> fs_result unit
}.

(** [run w t p]: the requests [p] makes, in order, and how it settles,
    when [t] requests were made before. *)
Fixpoint run {A} (w : world) (t : nat) (p : prog A) : list event * completion A :=
  match p with
  | Ret a => ([], Normal a)
  | Throw e => ([], Abrupt e)
  | ReadKeyFile k =>
      let (tr, r) := run w (S t) (k (key_file w t)) in (EReadKeyFile :: tr, r)
  | HttpGet q k =>
      let (tr, r) := run w (S t) (k (http w t q)) in (EHttpGet q :: tr, r)
  | Mkdir d k =>
      let (tr, r) := run w (S t) (k (mkdir w t d)) in (EMkdir d :: tr, r)
  | WriteFile d x k =>
      let (tr, r) := run w (S t) (k (write_file w t d x)) in (EWriteFile d x :: tr, r)
  end.

Definition trace_of {A} (w : world) (p : prog A) : list event := fst (run w 0 p).
Definition outcome_of {A} (w : world) (p : prog A) : completion A := snd (run w 0 p).

Definition is_http (e : event) : bool :=
  match e with EHttpGet _ => true | _ => false end.

(** The number of calls to the transport. *)
Definition http_calls (tr : list event) : nat := List.length (filter is_http tr).

(** The paths given to [fs.writeFile], in order. *)
Fixpoint written_paths (tr : list event) : list jsstring :=
  match tr with
  | [] => []
  | EWriteFile p _ :: tr' => p :: written_paths tr'
  | _ :: tr' => written_paths tr'
  end.

(* ================================================================== *)
(** * The client *)
(* ================================================================== *)

Definition CHAIN_CONFIGS : list (Z * jsstring) :=
  [ (1, lit "Ethereum Mainnet");
    (56, lit "BNB Smart Chain");
    (137, lit "Polygon");
    (42161, lit "Arbitrum One");
    (10, lit "Optimism");
    (43114, lit "Avalanche C-Chain");
    (250, lit "Fantom");
    (8453, lit "Base");
    (81457, lit "Blast");
    (534352, lit "Scroll");
    (59144, lit "Linea");
    (11155111, lit "Sepolia Testnet");
    (5, lit "Goerli Testnet") ]%Z.

(** [CHAIN_CONFIGS[chainId]]. *)
Fixpoint chain_config (table : list (Z * jsstring)) (chainId : Z) : option jsstring :=
  match table with
  | [] => None
  | (id, name) :: table' => if (id =? chainId)%Z then Some name else chain_config table' chainId
  end.

(** [this.apiKey], as the constructor stored it. *)
Record client := { apiKey : value }.

Definition getApiKey (c : client) : prog value :=
  if truthy (apiKey c) then Ret (apiKey c)
  else
    ReadKeyFile (fun r =>
      match r with
      | FsOk key => Ret (VStr (trim key))
      | FsFail cause => Throw (Error (Unable_to_read_API_key cause))
      end).

Definition validateChainId (chainId : Z) : completion jsstring :=
  match chain_config CHAIN_CONFIGS chainId with
  | Some config => Normal config
  | None => Abrupt (Error (Unsupported_chain_ID chainId))
  end.

(** [v.includes(needle)]: the method of strings and of arrays; other
    values have no such method. *)
Definition call_includes (v : value) (needle : jsstring) : completion bool :=
  match v with
  | VStr s => Normal (includes s needle)
  | VArr l => Normal (existsb (fun x => is_string x needle) l)
  | _ => Abrupt TypeError
  end.

(** [v === 0]. *)
Definition is_zero (v : value) : bool :=
  match v with
  | VNum n => number_is_zero n
  | _ => false
  end.

(** [v.k = x], reached with objects only (see [truthy_property_object]). *)
Definition put (v : value) (k : jsstring) (x : value) : completion value :=
  match v with
  | VObj ps => Normal (VObj (set_prop ps k x))
  | _ => Abrupt TypeError
  end.

(** The [params] of the two requests. *)
Definition source_request (chainId : Z) (address : jsstring) (apiKey : value) : request :=
  {| chainid := chainId; module := lit "contract"; action := lit "getsourcecode";
     address := address; tag := None; apikey := apiKey |}.

Definition code_request (chainId : Z) (address : jsstring) (apiKey : value) : request :=
  {| chainid := chainId; module := lit "proxy"; action := lit "eth_getCode";
     address := address; tag := Some (lit "latest"); apikey := apiKey |}.

(** Lines 54-86.  The [catch] block prints a diagnostic and answers
    true. *)
Definition isContract (c : client) (chainId : Z) (address : jsstring) : prog bool :=
  (apiKey <- getApiKey c ;;
   catch
     (data <- axios_get (code_request chainId address apiKey) ;;
      status <- lift (get data (lit "status")) ;;
      has_code <- (if is_string status (lit "1")
                   then result <- lift (get data (lit "result")) ;; Ret (truthy result)
                   else Ret false) ;;
      result <- lift (get data (lit "result")) ;;
      if has_code : bool then
        Ret (negb (is_string result (lit "0x")) && negb (is_string result (lit "")))
      else if is_string result (lit "0x") then Ret false
      else Ret true)
     (fun _ => Ret true))%prog.

(** [response.data.message || response.data.result || 'Failed to fetch
    contract source']. *)
Definition error_text (data : value) : completion value :=
  (message <- get data (lit "message") ;;
   if truthy message then Normal message
   else
     result <- get data (lit "result") ;;
     Normal (or_else result (VStr (lit "Failed to fetch contract source"))))%completion.

(** Lines 104-115: the response does not carry status '1'. *)
Definition throw_api_failure (data : value) : prog value :=
  (errorMsg <- lift (error_text data) ;;
   upper <- lift (call_includes errorMsg (lit "Invalid API Key")) ;;
   invalid <- (if upper : bool then Ret true
               else lift (call_includes errorMsg (lit "invalid API key"))) ;;
   if invalid : bool then Throw (Error Invalid_API_key)
   else
     limited <- lift (call_includes errorMsg (lit "Max rate limit reached")) ;;
     if limited : bool then Throw (Error Rate_limit_exceeded)
     else Throw (Error (API_Error errorMsg)))%prog.

(** Lines 136-141. *)
Definition add_proxy_info (contract : value) : completion value :=
  (proxy <- get contract (lit "Proxy") ;;
   if is_string proxy (lit "1") then
     implementation <- get contract (lit "Implementation") ;;
     put contract (lit "proxyInfo")
       (VObj [ (lit "isProxy", VBool true);
               (lit "implementation", or_else implementation VNull) ])
   else Normal contract)%completion.

(** The [catch] of lines 144-149: only a rejected request that carries a
    response has a truthy [error.response]. *)
Definition rethrow (error : exn) : prog value :=
  match error with
  | AxiosError (Some (status, statusText)) => Throw (Error (HTTP_Error status statusText))
  | _ => Throw error
  end.

(** Lines 88-150.  [chainName] (line 126) is computed and never used. *)
Definition fetchContractSource (c : client) (chainId : Z) (address : jsstring) : prog value :=
  (apiKey <- getApiKey c ;;
   _ <- lift (validateChainId chainId) ;;
   catch
     (data <- axios_get (source_request chainId address apiKey) ;;
      status <- lift (get data (lit "status")) ;;
      if negb (is_string status (lit "1")) then throw_api_failure data
      else
        result <- lift (get data (lit "result")) ;;
        len <- (if truthy result then lift (get result (lit "length")) else Ret VUndefined) ;;
        if negb (truthy result) || is_zero len then Throw (Error No_contract_found)
        else
          contract <- lift (get result (lit "0")) ;;
          sourceCode <- lift (get contract (lit "SourceCode")) ;;
          if negb (truthy sourceCode) || is_string sourceCode (lit "") then
            is_contract <- isContract c chainId address ;;
            if negb is_contract then Throw (Error (EOA_address address))
            else Throw (Error (Unverified_contract address))
          else lift (add_proxy_info contract))
     rethrow)%prog.

(* ================================================================== *)
(** * path.join and path.dirname (POSIX) *)
(* ================================================================== *)

Definition slash : N := 47.

(** The segments between the slashes of a path. *)
Fixpoint split (s : jsstring) : list jsstring :=
  match s with
  | [] => [[]]
  | c :: s' =>
      if c =? slash then [] :: split s'
      else match split s' with
           | seg :: segs => (c :: seg) :: segs
           | [] => [[c]]
           end
  end.

Definition is_dot (seg : jsstring) : bool := str_eqb seg (lit ".").
Definition is_dotdot (seg : jsstring) : bool := str_eqb seg (lit "..").

(** One segment of [normalizeString]; [stack] holds the segments kept so
    far, the last one first. *)
Definition norm_step (allowAboveRoot : bool) (stack : list jsstring) (seg : jsstring)
  : list jsstring :=
  match seg with
  | [] => stack
  | _ =>
      if is_dot seg then stack
      else if is_dotdot seg then
        match stack with
        | top :: below =>
            if is_dotdot top then (if allowAboveRoot then seg :: stack else stack)
            else below
        | [] => if allowAboveRoot then [seg] else []
        end
      else seg :: stack
  end.

Definition is_absolute (p : jsstring) : bool :=
  match p with
  | c :: _ => c =? slash
  | [] => false
  end.

(** A normalized path: whether it starts at the root, and its segments. *)
Definition resolved := (bool * list jsstring)%type.

Definition resolve (p : jsstring) : resolved :=
  (is_absolute p,
   rev (fold_left (norm_step (negb (is_absolute p))) (split p) [])).

Fixpoint join_segments (segs : list jsstring) : jsstring :=
  match segs with
  | [] => []
  | [seg] => seg
  | seg :: segs' => seg ++ slash :: join_segments segs'
  end.

(** [path.normalize]. *)
Definition path_normalize (p : jsstring) : jsstring :=
  match p with
  | [] => lit "."
  | _ =>
      let (absolute, segs) := resolve p in
      let trailing := match rev p with c :: _ => c =? slash | [] => false end in
      match segs with
      | [] => if absolute then lit "/" else if trailing then lit "./" else lit "."
      | _ =>
          (if absolute then [slash] else []) ++ join_segments segs
          ++ (if trailing then [slash] else [])
      end
  end.

(** The arguments of [path.join(a, b)] put together, before
    normalization; empty arguments are left out. *)
Definition joined (a b : jsstring) : jsstring :=
  match a, b with
  | [], _ => b
  | _, [] => a
  | _, _ => a ++ slash :: b
  end.

Definition path_join (a b : jsstring) : jsstring := path_normalize (joined a b).

Fixpoint drop_while (f : N -> bool) (l : jsstring) : jsstring :=
  match l with
  | c :: l' => if f c then drop_while f l' else l
  | [] => []
  end.

(** [path.dirname]: the path up to the slash before its last segment;
    the slash at position 0 is not looked at. *)
Definition path_dirname (p : jsstring) : jsstring :=
  match p with
  | [] => lit "."
  | _ =>
      (* from the end: the trailing slashes, then the last segment *)
      let r := drop_while (fun c => negb (c =? slash))
                 (drop_while (fun c => c =? slash) (rev p)) in
      match r with
      | _ :: _ :: _ =>
          if is_absolute p && (List.length r =? 2)%nat then lit "//"
          else rev (tl r)
      | _ => if is_absolute p then lit "/" else lit "."
      end
  end.

(* ================================================================== *)
(** * saveContractFiles *)
(* ================================================================== *)

Section Writer.

(** The host's [parseInt].  It reads its argument through [ToString],
    which for a number is the printing of a binary64 value; the writer
    only tests its result for truthiness. *)
Variable parseInt : value -> value.

(** [this.parseSourceCode(contract.SourceCode)]: only a string has the
    [startsWith] method. *)
Definition call_parseSourceCode (sourceCode : value) : completion (list file) :=
  match sourceCode with
  | VStr s => parseSourceCode s
  | _ => Abrupt TypeError
  end.

(** The [for (const file of files)] loop, lines 209-217. *)
Fixpoint write_files (localPath : jsstring) (files : list file) (savedFiles : list jsstring)
  : prog (list jsstring) :=
  match files with
  | [] => Ret savedFiles
  | f :: rest =>
      let filePath := path_join localPath (path f) in
      let fileDir := path_dirname filePath in
      (fs_mkdir fileDir ;;
       fs_writeFile filePath (Data (content f)) ;;
       write_files localPath rest (savedFiles ++ [filePath]))%prog
  end.

(** The [metadata] object, lines 220-236. *)
Definition build_metadata (contract : value) : completion value :=
  (contractName <- get contract (lit "ContractName") ;;
   compilerVersion <- get contract (lit "CompilerVersion") ;;
   optimizationUsed <- get contract (lit "OptimizationUsed") ;;
   runs <- get contract (lit "Runs") ;;
   evmVersion <- get contract (lit "EVMVersion") ;;
   library <- get contract (lit "Library") ;;
   licenseType <- get contract (lit "LicenseType") ;;
   proxy <- get contract (lit "Proxy") ;;
   implementation <- get contract (lit "Implementation") ;;
   swarmSource <- get contract (lit "SwarmSource") ;;
   let metadata :=
     [ (lit "contractName", contractName);
       (lit "compilerVersion", compilerVersion);
       (lit "optimizationUsed", VBool (is_string optimizationUsed (lit "1")));
       (lit "runs", or_else (parseInt runs) (num_of_N 0));
       (lit "evmVersion", or_else evmVersion (VStr (lit "default")));
       (lit "library", or_else library (VStr (lit "")));
       (lit "licenseType", or_else licenseType (VStr (lit "")));
       (lit "proxy", or_else proxy (VStr (lit "0")));
       (lit "implementation", or_else implementation (VStr (lit "")));
       (lit "swarmSource", or_else swarmSource (VStr (lit ""))) ] in
   proxyInfo <- get contract (lit "proxyInfo") ;;
   if truthy proxyInfo
   then Normal (VObj (set_prop metadata (lit "proxyInfo") proxyInfo))
   else Normal (VObj metadata))%completion.

Definition saveContractFiles (contract : value) (localPath : jsstring)
  : prog (list jsstring) :=
  (sourceCode <- lift (get contract (lit "SourceCode")) ;;
   files <- lift (call_parseSourceCode sourceCode) ;;
   fs_mkdir localPath ;;
   savedFiles <- write_files localPath files [] ;;
   let metadataPath := path_join localPath (lit "metadata.json") in
   metadata <- lift (build_metadata contract) ;;
   fs_writeFile metadataPath (Json_stringify metadata) ;;
   Ret (savedFiles ++ [metadataPath]))%prog.

End Writer.

(* ================================================================== *)
(** * Vocabulary of the statements *)
(* ================================================================== *)

Definition is_nullish (v : value) : bool :=
  match v with
  | VUndefined | VNull => true
  | _ => false
  end.

(** Some entry of the list has the value null (or undefined). *)
Definition has_nullish (entries : props) : bool :=
  existsb (fun kv => is_nullish (snd kv)) entries.

(** [source.content || ''] for a source that is not null. *)
Definition content_of (source : value) : value :=
  match get source (lit "content") with
  | Normal c => or_else c (VStr (lit ""))
  | Abrupt _ => VStr (lit "")
  end.

(** The file an entry [[filePath, source]] of the sources is decoded to. *)
Definition file_of_entry (kv : jsstring * value) : file :=
  {| path := clean_path (fst kv); content := content_of (snd kv) |}.


(** A segment is kept when it is neither empty nor a single dot. *)
Definition kept (seg : jsstring) : bool :=
  match seg with
  | [] => false
  | _ => negb (is_dot seg)
  end.

(** The segment has no slash in it. *)
Definition slash_free (seg : jsstring) : bool := forallb (fun c => negb (c =? slash)) seg.

(** A segment that [normalizeString] keeps and that is not [..]. *)
Definition plain (seg : jsstring) : bool :=
  kept seg && negb (is_dotdot seg) && slash_free seg.

Definition dotdots (k : nat) : list jsstring := repeat (lit "..") k.

(** The shape of the kept segments, the last one first: plain segments,
    and below them [..] segments, which occur in a relative path only. *)
Definition normal_stack (allow : bool) (stack : list jsstring) : Prop :=
  exists body k,
    stack = body ++ dotdots k /\ forallb plain body = true /\ (allow = false -> k = 0%nat).

(** The path has no [..] segment. *)
Definition no_dotdot (rel : jsstring) : bool :=
  negb (existsb is_dotdot (split rel)).

Fixpoint is_prefix (a b : list jsstring) : bool :=
  match a, b with
  | [], _ => true
  | x :: a', y :: b' => str_eqb x y && is_prefix a' b'
  | _ :: _, [] => false
  end.

(** The target [path.join(root, rel)] lies at or below [root]: both are
    anchored alike, the segments of the normalized [root] begin those of
    the target, and no [..] follows them. *)
Definition stays_under (root rel : jsstring) : bool :=
  let (root_absolute, root_segs) := resolve root in
  let (absolute, segs) := resolve (joined root rel) in
  Bool.eqb root_absolute absolute
  && is_prefix root_segs segs
  && negb (existsb is_dotdot (skipn (List.length root_segs) segs)).

(** The path [target] lies at or below [root]: both are anchored alike,
    the segments of the normalized [root] begin those of the normalized
    [target], and no [..] follows them. *)
Definition lies_under (root target : jsstring) : bool :=
  let (root_absolute, root_segs) := resolve root in
  let (absolute, segs) := resolve target in
  Bool.eqb root_absolute absolute
  && is_prefix root_segs segs
  && negb (existsb is_dotdot (skipn (List.length root_segs) segs)).

(** The value is a string. *)
Definition is_text (v : value) : bool :=
  match v with
  | VStr _ => true
  | _ => false
  end.

(** The content of every file is a string. *)
Definition text_files (files : list file) : bool :=
  forallb (fun f => is_text (content f)) files.

(** The response carries the success status and [entry] is the first
    element of its non-empty result. *)
Definition success_entry (data entry : value) : Prop :=
  exists status result len,
    get data (lit "status") = Normal status /\
    is_string status (lit "1") = true /\
    get data (lit "result") = Normal result /\
    truthy result = true /\
    get result (lit "length") = Normal len /\
    is_zero len = false /\
    get result (lit "0") = Normal entry.

(** The answer to the bytecode probe says that there is no code: it is a
    response whose [result] is the string '0x'. *)
Definition reports_no_code (answer : completion value) : bool :=
  match answer with
  | Normal data =>
      match get data (lit "result") with
      | Normal result => is_string result (lit "0x")
      | Abrupt _ => false
      end
  | Abrupt _ => false
  end.

(** A world whose disk accepts every operation, with the given key file
    and transport. *)
Definition make_world (key : fs_result jsstring)
           (transport : nat -> request -> completion value) : world :=
  {| key_file := fun _ => key;
     http := transport;
     mkdir := fun _ _ => FsOk tt;
     write_file := fun _ _ _ => FsOk tt |}.

(** Every operation on the disk succeeds. *)
Definition disk_accepts (w : world) : Prop :=
  (forall t p, mkdir w t p = FsOk tt) /\
  (forall t p d, write_file w t p d = FsOk tt).



(** The events of one round of the writing loop. *)
Definition file_events (localPath : jsstring) (f : file) : list event :=
  let filePath := path_join localPath (path f) in
  [EMkdir (path_dirname filePath); EWriteFile filePath (Data (content f))].

(** The API key is resolved, the chain is supported, and the
    getsourcecode request of [fetchContractSource c chainId address] is
    answered with the success status and [entry] as its first result. *)
Definition answered_with (w : world) (c : client) (chainId : Z) (address : jsstring)
           (entry : value) : Prop :=
  exists tr0 key name data,
    run w 0 (getApiKey c) = (tr0, Normal key) /\
    chain_config CHAIN_CONFIGS chainId = Some name /\
    http w (List.length tr0) (source_request chainId address key) = Normal data /\
    success_entry data entry.


(* ================================================================== *)
(** * The rest of the client, the writer and the command line *)
(* ================================================================== *)

From Stdlib Require Import Permutation.

(** The event creates a directory or writes a file. *)
Definition touches_disk (e : event) : bool :=
  match e with
  | EMkdir _ | EWriteFile _ _ => true
  | _ => false
  end.

(** [reads_only n p]: whatever the answers, [p] calls the transport at
    most [n] times and, on the disk, only reads the key file. *)
Inductive reads_only {A : Type} : nat -> prog A -> Prop :=
| ro_ret n a : reads_only n (Ret a)
| ro_throw n e : reads_only n (Throw e)
| ro_key n k : (forall r, reads_only n (k r)) -> reads_only n (ReadKeyFile k)
| ro_http n q k : (forall r, reads_only n (k r)) -> reads_only (S n) (HttpGet q k).

(** What the [catch] of lines 144-149 throws for a caught [error]. *)
Definition rethrown (error : exn) : exn :=
  match error with
  | AxiosError (Some (status, statusText)) => Error (HTTP_Error status statusText)
  | _ => error
  end.

(** The value has an [includes] method: it is a string or an array. *)
Definition has_includes (v : value) : bool :=
  match v with
  | VStr _ | VArr _ => true
  | _ => false
  end.

(** The [chains] array that the [chains] command of the command line
    prints, as pairs of [id] and [name]. *)
Definition listed_chains : list (Z * jsstring) :=
  [ (1, lit "Ethereum Mainnet");
    (56, lit "BNB Smart Chain");
    (137, lit "Polygon");
    (42161, lit "Arbitrum One");
    (10, lit "Optimism");
    (43114, lit "Avalanche C-Chain");
    (250, lit "Fantom");
    (8453, lit "Base");
    (81457, lit "Blast");
    (534352, lit "Scroll");
    (59144, lit "Linea");
    (11155111, lit "Sepolia Testnet");
    (5, lit "Goerli Testnet") ]%Z.

(** ** The fetch command of the command line *)

Definition is_hex (c : N) : bool :=
  is_digit c || ((97 <=? c) && (c <=? 102)) || ((65 <=? c) && (c <=? 70)).

(** [address.match(/^0x[a-fA-F0-9]{40}$/i)]: under the ignore-case flag
    the [x] of the pattern matches [X] as well. *)
Definition matches_address (address : jsstring) : bool :=
  match address with
  | zero :: x :: digits =>
      (zero =? ch "0") && ((x =? ch "x") || (x =? ch "X"))
      && (List.length digits =? 40)%nat && forallb is_hex digits
  | _ => false
  end.

(** The address as the action of the fetch command hands it to
    [fetchContractSource]: the prefix [0x] is put in front when the
    address starts with neither [0x] nor [0X]; [None] when the Error
    'Invalid contract address format' is thrown. *)
Definition prepare_address (address : jsstring) : option jsstring :=
  let address' :=
    if negb (startsWith address (lit "0x")) && negb (startsWith address (lit "0X"))
    then lit "0x" ++ address
    else address in
  if matches_address address' then Some address' else None.

(** The decimal numeral of an integer. *)
Definition integer_to_string (n : Z) : jsstring :=
  (if (n <? 0)%Z then [ch "-"] else []) ++ index_to_string (Z.abs_N n).

(** [error.message] for the messages that are put together from strings
    and integers only; an integer is printed as its decimal numeral as
    long as it is below [10^21] in magnitude. *)
Definition message_text (m : message) : option jsstring :=
  match m with
  | Unable_to_read_API_key cause =>
      Some (lit "Unable to read API key from ~/.etherscankey: " ++ cause)
  | Unsupported_chain_ID chainId =>
      if (Z.abs chainId <? 10 ^ 21)%Z then
        Some (lit "Unsupported chain ID: " ++ integer_to_string chainId
              ++ lit ". Use 'fetch-contract chains' to see supported chains.")
      else None
  | Invalid_API_key => Some (lit "Invalid API key")
  | Rate_limit_exceeded => Some (lit "Rate limit exceeded")
  | API_Error (VStr text) => Some (lit "API Error: " ++ text)
  | API_Error _ => None
  | No_contract_found => Some (lit "No contract found at this address")
  | EOA_address address => Some (lit "EOA address: " ++ address)
  | Unverified_contract address => Some (lit "Unverified contract: " ++ address)
  | HTTP_Error _ _ => None
  end.

(** The tips of the [catch] block of the fetch command. *)
Inductive tip :=
| Tip_key          (* Check ~/.etherscankey or use -k flag *)
| Tip_unverified   (* Contract exists but source not published *)
| Tip_wallet       (* This is a wallet address, not a contract *)
| Tip_chains.      (* Use "fetch-contract chains" for valid chain IDs *)

Definition tip_for (message : jsstring) : option tip :=
  if includes message (lit "API key") then Some Tip_key
  else if includes message (lit "Unverified") then Some Tip_unverified
  else if includes message (lit "EOA") then Some Tip_wallet
  else if includes message (lit "chain") then Some Tip_chains
  else None.

(** [never bad p]: whatever the answers, [p] makes no request whose
    event satisfies [bad]. *)
Inductive never {A : Type} (bad : event -> bool) : prog A -> Prop :=
| never_ret a : never bad (Ret a)
| never_throw e : never bad (Throw e)
| never_key k :
    bad EReadKeyFile = false -> (forall r, never bad (k r)) -> never bad (ReadKeyFile k)
| never_http q k :
    bad (EHttpGet q) = false -> (forall r, never bad (k r)) -> never bad (HttpGet q k)
| never_mkdir p k :
    bad (EMkdir p) = false -> (forall r, never bad (k r)) -> never bad (Mkdir p k)
| never_write p d k :
    bad (EWriteFile p d) = false -> (forall r, never bad (k r)) -> never bad (WriteFile p d k).

Definition is_key_read (e : event) : bool :=
  match e with
  | EReadKeyFile => true
  | _ => false
  end.

(** What [fs.writeFile] refuses before it asks the disk: every value
    that is neither a string nor an array. *)
Definition refused_data (v : value) : bool :=
  match v with
  | VStr _ | VArr _ => false
  | _ => true
  end.
(* ================================================================== *)
(** * The decoder *)
(* ================================================================== *)

Lemma startsWith_two_one raw :
  startsWith raw (lit "{{") = true -> startsWith raw (lit "{") = true.
Proof.
  destruct raw as [|c raw']; cbn; [discriminate|].
  destruct (c =? 123); cbn; [reflexivity | discriminate].
Qed.

Lemma startsWith_one_two raw :
  startsWith raw (lit "{") = false -> startsWith raw (lit "{{") = false.
Proof.
  intros H. destruct (startsWith raw (lit "{{")) eqn:E; [|reflexivity].
  apply startsWith_two_one in E. congruence.
Qed.



Lemma get_not_nullish v k : is_nullish v = false -> exists x, get v k = Normal x.
Proof.
  destruct v; cbn [is_nullish]; try discriminate; intros _; unfold get; eauto;
    destruct (str_eqb k (lit "length")); eauto;
    destruct (array_index k); eauto.
Qed.

Lemma push_files_all entries : forall files,
  has_nullish entries = false ->
  push_files entries files = Normal (files ++ map file_of_entry entries).
Proof.
  induction entries as [|[k v] entries IH]; intros files H.
  - cbn. now rewrite app_nil_r.
  - cbn in H. apply orb_false_iff in H as [Hv Hrest].
    destruct (get_not_nullish v (lit "content") Hv) as [c G].
    cbn [push_files map]. unfold file_of_entry at 1, content_of. cbn [fst snd].
    rewrite G. cbn [cbind]. rewrite IH by assumption. now rewrite <- app_assoc.
Qed.

Lemma push_files_null entries : forall files,
  has_nullish entries = true ->
  push_files entries files = Abrupt TypeError.
Proof.
  induction entries as [|[k v] entries IH]; intros files H.
  - discriminate.
  - cbn in H. cbn [push_files]. destruct (is_nullish v) eqn:Hv.
    + destruct v; try discriminate; reflexivity.
    + destruct (get_not_nullish v (lit "content") Hv) as [c G].
      rewrite G. cbn [cbind]. now apply IH.
Qed.

Lemma try_catch_total {A} (c : completion A) (h : exn -> completion A) :
  (forall e, exists a, h e = Normal a) -> exists a, try_catch c h = Normal a.
Proof.
  intros H. destruct c as [a|e]; cbn; [now exists a | apply H].
Qed.

Lemma parse_standard_json_total raw :
  exists r, parse_standard_json raw = Normal r.
Proof.
  unfold parse_standard_json. apply try_catch_total. intros e. now exists None.
Qed.

(** C7.  A source text that does not begin with an opening brace is
    decoded to exactly one file, named Contract.sol, whose content is
    the text itself. *)
Theorem plain_source_is_one_file (raw : jsstring) :
  startsWith raw (lit "{") = false ->
  parseSourceCode raw
  = Normal [{| path := lit "Contract.sol"; content := VStr raw |}].
Proof.
  intros H. unfold parseSourceCode.
  rewrite (startsWith_one_two _ H), H. reflexivity.
Qed.

Lemma plain_source_is_one_file_witness :
  startsWith (lit "pragma solidity ^0.8.0;") (lit "{") = false /\
  parseSourceCode (lit "pragma solidity ^0.8.0;")
  = Normal [{| path := lit "Contract.sol";
               content := VStr (lit "pragma solidity ^0.8.0;") |}].
Proof.
  split; [reflexivity | apply plain_source_is_one_file; reflexivity].
Defined.

(** The text [parseSourceCode] hands to [JSON.parse], if any. *)
Lemma malformed_json_single_file raw :
  JSON_parse (if startsWith raw (lit "{{") then slice raw 1 (-1) else raw)
  = Abrupt SyntaxError ->
  parseSourceCode raw = Normal (single_file raw).
Proof.
  intros H. unfold parseSourceCode.
  destruct (startsWith raw (lit "{{")).
  - unfold parse_multi_file. now rewrite H.
  - destruct (startsWith raw (lit "{")); [|reflexivity].
    unfold parse_standard_json. now rewrite H.
Qed.

(** Every exception raised inside [parseSourceCode] is caught there. *)
Lemma parseSourceCode_returns raw : exists files, parseSourceCode raw = Normal files.
Proof.
  unfold parseSourceCode. destruct (startsWith raw (lit "{{")).
  - unfold parse_multi_file. apply try_catch_total.
    intros e. now exists (single_file raw).
  - destruct (startsWith raw (lit "{")).
    + destruct (parse_standard_json_total raw) as [[files|] ->]; cbn; eauto.
    + cbn. eauto.
Qed.

(** What the loops push is one file per entry, unless an entry is null. *)
Lemma push_files_result entries files :
  push_files entries [] = Normal files ->
  has_nullish entries = false /\ files = map file_of_entry entries.
Proof.
  intros H. destruct (has_nullish entries) eqn:Hn.
  - rewrite push_files_null in H by assumption. discriminate.
  - rewrite push_files_all in H by assumption. cbn [app] in H.
    split; [reflexivity | congruence].
Qed.

(** C5, as the code has it.  [parseSourceCode] is total: on every string
    it returns an array of files and throws nothing.  When [JSON.parse]
    rejects the text, the result is the one file Contract.sol that holds
    the whole input; so it is when the parsed text has no properties
    to read (it is null) or an entry of its sources is null.  Every
    result is either that single file, or one file per entry that
    [Object.entries] lists for the [sources] of the parsed text, none of
    them null: the path of a file is the key of its entry without a
    compiler-version prefix, and its content is the [content] field of
    the entry as it is when that is truthy, a string or not, and the
    empty string otherwise. *)
Theorem parseSourceCode_total (raw : jsstring) :
  let text := if startsWith raw (lit "{{") then slice raw 1 (-1) else raw in
  (exists files, parseSourceCode raw = Normal files) /\
  (forall e,
     JSON_parse text = Abrupt e ->
     parseSourceCode raw = Normal [{| path := lit "Contract.sol"; content := VStr raw |}]) /\
  (forall parsed,
     JSON_parse text = Normal parsed ->
     (exists e, get parsed (lit "sources") = Abrupt e) \/
     (exists sources entries,
        get parsed (lit "sources") = Normal sources /\
        Object_entries (or_else sources (VObj [])) = Normal entries /\
        has_nullish entries = true) ->
     parseSourceCode raw = Normal [{| path := lit "Contract.sol"; content := VStr raw |}]) /\
  (forall files,
     parseSourceCode raw = Normal files ->
     files = [{| path := lit "Contract.sol"; content := VStr raw |}] \/
     exists parsed sources entries,
       JSON_parse text = Normal parsed /\
       get parsed (lit "sources") = Normal sources /\
       Object_entries (or_else sources (VObj [])) = Normal entries /\
       has_nullish entries = false /\
       files = map (fun kv => {| path := clean_path (fst kv);
                                 content := match get (snd kv) (lit "content") with
                                            | Normal c => if truthy c then c else VStr []
                                            | Abrupt _ => VStr []
                                            end |}) entries).
Proof.
  cbv zeta. split; [apply parseSourceCode_returns|]. split; [|split].
  - intros e H. unfold parseSourceCode.
    destruct (startsWith raw (lit "{{")).
    + unfold parse_multi_file. now rewrite H.
    + destruct (startsWith raw (lit "{")); [|reflexivity].
      unfold parse_standard_json. now rewrite H.
  - intros parsed Hj Hbad. unfold parseSourceCode.
    destruct (startsWith raw (lit "{{")).
    + unfold parse_multi_file. rewrite Hj. cbn [cbind].
      destruct Hbad as [[e ->] | (sources & entries & -> & He & Hn)]; [reflexivity|].
      cbn [cbind]. rewrite He. cbn [cbind].
      now rewrite push_files_null by assumption.
    + destruct (startsWith raw (lit "{")); [|reflexivity].
      unfold parse_standard_json. rewrite Hj. cbn [cbind].
      destruct (get parsed (lit "language")) as [language|e'] eqn:Hl; [|reflexivity].
      cbn [cbind]. destruct (is_string language (lit "Solidity")); [|reflexivity].
      destruct Hbad as [[e ->] | (sources & entries & -> & He & Hn)]; [reflexivity|].
      cbn [cbind]. destruct (truthy sources) eqn:Ht; [|reflexivity].
      unfold or_else in He. rewrite Ht in He. rewrite He. cbn [cbind].
      now rewrite push_files_null by assumption.
  - intros files. unfold parseSourceCode.
    destruct (startsWith raw (lit "{{")).
    + unfold parse_multi_file.
      destruct (JSON_parse (slice raw 1 (-1))) as [parsed|e] eqn:Hj; cbn [cbind try_catch];
        [|intros H; left; unfold single_file in H; congruence].
      destruct (get parsed (lit "sources")) as [sources|e] eqn:Hg; cbn [cbind try_catch];
        [|intros H; left; unfold single_file in H; congruence].
      destruct (Object_entries (or_else sources (VObj []))) as [entries|e] eqn:He;
        cbn [cbind try_catch];
        [|intros H; left; unfold single_file in H; congruence].
      destruct (push_files entries []) as [pushed|e] eqn:Hp; cbn [try_catch];
        [|intros H; left; unfold single_file in H; congruence].
      intros H. right. destruct (push_files_result _ _ Hp) as [Hn ->].
      exists parsed, sources, entries. split; [first [exact Hj | reflexivity]|].
      split; [first [exact Hg | reflexivity]|].
      split; [exact He|]. split; [exact Hn|]. injection H as <-. reflexivity.
    + destruct (startsWith raw (lit "{"));
        [|cbn [cbind]; intros H; left; unfold single_file in H; congruence].
      unfold parse_standard_json.
      destruct (JSON_parse raw) as [parsed|e] eqn:Hj; cbn [cbind try_catch];
        [|intros H; left; unfold single_file in H; congruence].
      destruct (get parsed (lit "language")) as [language|e]; cbn [cbind try_catch];
        [|intros H; left; unfold single_file in H; congruence].
      destruct (is_string language (lit "Solidity")); cbn [cbind try_catch];
        [|intros H; left; unfold single_file in H; congruence].
      destruct (get parsed (lit "sources")) as [sources|e] eqn:Hg; cbn [cbind try_catch];
        [|intros H; left; unfold single_file in H; congruence].
      destruct (truthy sources) eqn:Ht; cbn [cbind try_catch];
        [|intros H; left; unfold single_file in H; congruence].
      destruct (Object_entries sources) as [entries|e] eqn:He; cbn [cbind try_catch];
        [|intros H; left; unfold single_file in H; congruence].
      destruct (push_files entries []) as [pushed|e] eqn:Hp; cbn [cbind try_catch];
        [|intros H; left; unfold single_file in H; congruence].
      intros H. right. destruct (push_files_result _ _ Hp) as [Hn ->].
      exists parsed, sources, entries. split; [first [exact Hj | reflexivity]|].
      split; [first [exact Hg | reflexivity]|].
      split; [unfold or_else; now rewrite Ht|]. split; [assumption|].
      injection H as <-. reflexivity.
Qed.

Lemma parseSourceCode_total_witness :
  JSON_parse (slice (lit "{{ not json }}") 1 (-1)) = Abrupt SyntaxError /\
  parseSourceCode (lit "{{ not json }}")
  = Normal [{| path := lit "Contract.sol"; content := VStr (lit "{{ not json }}") |}].
Proof.
  split; [reflexivity|].
  apply (proj1 (proj2 (parseSourceCode_total (lit "{{ not json }}"))) SyntaxError).
  reflexivity.
Defined.

(** C5 as stated fails for entries and sources of unexpected shape: a
    [content] that is a number is handed on as the content of the file,
    where a string is promised; and a [sources] that is a number or a
    string does not make the decoder fall back to the single file
    Contract.sol: it yields no file at all, or one empty file per
    character. *)
Lemma unexpected_shape_counterexample :
  parseSourceCode (json_lit "{'language':'Solidity','sources':{'A.sol':{'content':5}}}")
  = Normal [{| path := lit "A.sol"; content := VNum (Dec false 5 0) |}] /\
  parseSourceCode (json_lit "{{'sources':5}}") = Normal [] /\
  parseSourceCode (json_lit "{{'sources':'ab'}}")
  = Normal [{| path := lit "0"; content := VStr [] |};
            {| path := lit "1"; content := VStr [] |}].
Proof.
  repeat split; reflexivity.
Qed.









(* ================================================================== *)
(** * Where the files are written *)
(* ================================================================== *)

Lemma str_eqb_refl s : str_eqb s s = true.
Proof.
  induction s as [|c s IH]; cbn; [reflexivity|].
  now rewrite N.eqb_refl, IH.
Qed.

Lemma str_eqb_eq a : forall b, str_eqb a b = true <-> a = b.
Proof.
  induction a as [|x a IH]; intros [|y b]; cbn; split; try congruence.
  - intros H. apply andb_true_iff in H as [Hx Hab].
    apply N.eqb_eq in Hx. apply IH in Hab. congruence.
  - intros E. injection E as -> ->. rewrite N.eqb_refl. now apply IH.
Qed.

Lemma is_prefix_app a b : is_prefix a (a ++ b) = true.
Proof.
  induction a as [|x a IH]; cbn; [reflexivity|].
  now rewrite str_eqb_refl, IH.
Qed.

Lemma split_not_nil s : split s <> [].
Proof.
  destruct s as [|c s]; cbn; [discriminate|].
  destruct (c =? slash); [discriminate|].
  destruct (split s); discriminate.
Qed.

(** The segments of [a/b] are those of [a] followed by those of [b]. *)
Lemma split_app_slash a b : split (a ++ slash :: b) = split a ++ split b.
Proof.
  induction a as [|c a IH].
  - cbn. reflexivity.
  - cbn [app split]. rewrite IH.
    destruct (c =? slash); [reflexivity|].
    pose proof (split_not_nil a) as Hne.
    destruct (split a) as [|seg segs]; [contradiction|]. reflexivity.
Qed.

Lemma norm_step_plain allow stack seg :
  is_dotdot seg = false ->
  norm_step allow stack seg = if kept seg then seg :: stack else stack.
Proof.
  intros H. unfold norm_step, kept. destruct seg as [|c seg]; [reflexivity|].
  destruct (is_dot (c :: seg)); [reflexivity|]. now rewrite H.
Qed.

Lemma fold_norm_plain allow segs : forall stack,
  existsb is_dotdot segs = false ->
  fold_left (norm_step allow) segs stack = rev (filter kept segs) ++ stack.
Proof.
  induction segs as [|seg segs IH]; intros stack H; cbn in *; [reflexivity|].
  apply orb_false_iff in H as [Hseg Hrest].
  rewrite norm_step_plain by assumption. rewrite IH by assumption.
  destruct (kept seg); cbn; [now rewrite <- app_assoc | reflexivity].
Qed.

Lemma existsb_filter_false {A} (p q : A -> bool) l :
  existsb p l = false -> existsb p (filter q l) = false.
Proof.
  induction l as [|x l IH]; cbn; [reflexivity|].
  intros H. apply orb_false_iff in H as [Hx Hl].
  destruct (q x); cbn; [rewrite Hx|]; now apply IH.
Qed.

Lemma is_absolute_joined root rel :
  root <> [] -> is_absolute (joined root rel) = is_absolute root.
Proof.
  destruct root as [|c root]; [contradiction|]. intros _.
  destruct rel; reflexivity.
Qed.

(** Joining a path without a [..] segment to a non-empty root gives a
    target below the root. *)
Lemma join_stays_under root rel :
  root <> [] -> no_dotdot rel = true -> stays_under root rel = true.
Proof.
  intros Hroot Hrel. unfold stays_under, resolve.
  rewrite is_absolute_joined by assumption.
  set (allow := negb (is_absolute root)).
  set (rs := fold_left (norm_step allow) (split root) []).
  assert (E : fold_left (norm_step allow) (split (joined root rel)) []
              = rev (filter kept (if match rel with [] => true | _ => false end
                                  then [] else split rel)) ++ rs).
  { destruct root as [|c root]; [contradiction|].
    destruct rel as [|d rel]; [reflexivity|].
    cbn [joined]. rewrite split_app_slash, fold_left_app. fold rs.
    apply fold_norm_plain. unfold no_dotdot in Hrel.
    now apply negb_true_iff in Hrel. }
  rewrite E, rev_app_distr, rev_involutive.
  rewrite Bool.eqb_reflx, is_prefix_app. cbn [andb].
  rewrite skipn_app, skipn_all, Nat.sub_diag. cbn [skipn app].
  apply negb_true_iff. destruct rel as [|d rel]; [reflexivity|].
  apply existsb_filter_false. unfold no_dotdot in Hrel.
  now apply negb_true_iff in Hrel.
Qed.

(** ** Normalizing a normalized path *)

Lemma split_slash_free s : forallb slash_free (split s) = true.
Proof.
  induction s as [|c s IH]; [reflexivity|]. cbn [split].
  destruct (c =? slash) eqn:Hc; [exact IH|].
  destruct (split s) as [|seg segs]; cbn in *; rewrite Hc; cbn; [reflexivity|exact IH].
Qed.

Lemma split_one seg : slash_free seg = true -> split seg = [seg].
Proof.
  induction seg as [|c seg IH]; [reflexivity|]. cbn.
  intros H. apply andb_true_iff in H as [Hc Hseg].
  apply negb_true_iff in Hc. rewrite Hc, (IH Hseg). reflexivity.
Qed.

Lemma split_join segs :
  segs <> [] -> forallb slash_free segs = true -> split (join_segments segs) = segs.
Proof.
  induction segs as [|seg segs IH]; [contradiction|]. intros _ H.
  cbn in H. apply andb_true_iff in H as [Hseg Hsegs].
  destruct segs as [|seg' segs].
  - cbn. now apply split_one.
  - change (join_segments (seg :: seg' :: segs))
      with (seg ++ slash :: join_segments (seg' :: segs)).
    rewrite split_app_slash, (split_one _ Hseg), IH by (discriminate || assumption).
    reflexivity.
Qed.

Lemma is_dotdot_eq seg : is_dotdot seg = true -> seg = lit "..".
Proof. intros H. now apply str_eqb_eq in H. Qed.

Lemma norm_step_normal allow stack seg :
  slash_free seg = true ->
  normal_stack allow stack -> normal_stack allow (norm_step allow stack seg).
Proof.
  intros Hfree (body & k & -> & Hbody & Hk). unfold norm_step.
  destruct seg as [|c seg]; [now exists body, k|].
  destruct (is_dot (c :: seg)) eqn:Hdot; [now exists body, k|].
  destruct (is_dotdot (c :: seg)) eqn:Hdd.
  - apply is_dotdot_eq in Hdd. rewrite Hdd.
    destruct body as [|b body].
    + cbn [app]. destruct k as [|k].
      * cbn [dotdots repeat]. destruct allow.
        -- exists [], 1%nat. repeat split. discriminate.
        -- exists [], 0%nat. repeat split.
      * cbn [dotdots repeat]. change (is_dotdot (lit "..")) with true. cbv iota.
        destruct allow.
        -- exists [], (S (S k)). repeat split. discriminate.
        -- specialize (Hk eq_refl). discriminate.
    + cbn [app]. cbn in Hbody. apply andb_true_iff in Hbody as [Hb Hbody].
      unfold plain in Hb. apply andb_true_iff in Hb as [Hb _].
      apply andb_true_iff in Hb as [_ Hb]. apply negb_true_iff in Hb. rewrite Hb.
      now exists body, k.
  - exists ((c :: seg) :: body), k. split; [reflexivity|]. split; [|exact Hk].
    cbn [forallb]. rewrite Hbody. unfold plain, kept. rewrite Hdot, Hdd, Hfree. reflexivity.
Qed.

Lemma fold_norm_normal allow segs : forall stack,
  forallb slash_free segs = true ->
  normal_stack allow stack -> normal_stack allow (fold_left (norm_step allow) segs stack).
Proof.
  induction segs as [|seg segs IH]; intros stack Hfree Hstack; [exact Hstack|].
  cbn in Hfree. apply andb_true_iff in Hfree as [Hseg Hsegs].
  cbn [fold_left]. apply IH; [assumption|]. now apply norm_step_normal.
Qed.

Lemma fold_norm_dotdots k : forall j,
  fold_left (norm_step true) (dotdots k) (dotdots j) = dotdots (k + j).
Proof.
  induction k as [|k IH]; intros j; [reflexivity|].
  cbn [dotdots repeat fold_left]. fold (dotdots k).
  replace (norm_step true (dotdots j) (lit "..")) with (dotdots (S j))
    by (destruct j; reflexivity).
  rewrite IH. f_equal. lia.
Qed.

Lemma rev_dotdots k : rev (dotdots k) = dotdots k.
Proof.
  unfold dotdots. induction k as [|k IH]; [reflexivity|].
  cbn [repeat rev]. rewrite IH. symmetry. apply repeat_cons.
Qed.

Lemma filter_kept_plain body : forallb plain body = true -> filter kept body = body.
Proof.
  induction body as [|b body IH]; [reflexivity|]. cbn. intros H.
  apply andb_true_iff in H as [Hb Hbody]. unfold plain in Hb.
  apply andb_true_iff in Hb as [Hb _]. apply andb_true_iff in Hb as [Hb _].
  now rewrite Hb, IH.
Qed.

Lemma plain_no_dotdot body : forallb plain body = true -> existsb is_dotdot body = false.
Proof.
  induction body as [|b body IH]; [reflexivity|]. cbn. intros H.
  apply andb_true_iff in H as [Hb Hbody]. unfold plain in Hb.
  apply andb_true_iff in Hb as [Hb _]. apply andb_true_iff in Hb as [_ Hb].
  apply negb_true_iff in Hb. now rewrite Hb, IH.
Qed.

Lemma forallb_rev_list {A} (f : A -> bool) l : forallb f (rev l) = forallb f l.
Proof.
  induction l as [|x l IH]; [reflexivity|].
  cbn. rewrite forallb_app, IH. cbn. rewrite andb_true_r. apply andb_comm.
Qed.

Lemma existsb_rev_list {A} (f : A -> bool) l : existsb f (rev l) = existsb f l.
Proof.
  induction l as [|x l IH]; [reflexivity|].
  cbn. rewrite existsb_app, IH. cbn. rewrite orb_false_r. apply orb_comm.
Qed.

(** Normalizing the kept segments again keeps them all. *)
Lemma fold_norm_again allow stack :
  normal_stack allow stack -> fold_left (norm_step allow) (rev stack) [] = stack.
Proof.
  intros (body & k & -> & Hbody & Hk).
  rewrite rev_app_distr, rev_dotdots, fold_left_app.
  assert (E : fold_left (norm_step allow) (dotdots k) [] = dotdots k).
  { destruct allow.
    - change (@nil jsstring) with (dotdots 0). rewrite fold_norm_dotdots. f_equal. lia.
    - now rewrite (Hk eq_refl). }
  rewrite E, fold_norm_plain.
  - rewrite filter_kept_plain, rev_involutive; [reflexivity|].
    now rewrite forallb_rev_list.
  - rewrite existsb_rev_list. now apply plain_no_dotdot.
Qed.

Lemma norm_step_empty allow stack : norm_step allow stack [] = stack.
Proof. reflexivity. Qed.

Lemma resolve_normal p :
  normal_stack (negb (is_absolute p))
    (fold_left (norm_step (negb (is_absolute p))) (split p) []).
Proof.
  apply fold_norm_normal; [apply split_slash_free|].
  exists [], 0%nat. repeat split.
Qed.

Lemma normal_stack_slash_free allow stack :
  normal_stack allow stack -> forallb slash_free stack = true.
Proof.
  intros (body & k & -> & Hbody & _). rewrite forallb_app. apply andb_true_iff. split.
  - induction body as [|b body IH]; [reflexivity|]. cbn in *.
    apply andb_true_iff in Hbody as [Hb Hbody]. unfold plain in Hb.
    apply andb_true_iff in Hb as [_ Hb]. now rewrite Hb, IH.
  - induction k as [|k IH]; [reflexivity|]. exact IH.
Qed.

(** The first segment of a relative normalized path does not begin with
    a slash. *)
Lemma normal_stack_last allow stack seg segs :
  normal_stack allow stack -> rev stack = seg :: segs ->
  exists c rest, seg = c :: rest /\ (c =? slash) = false.
Proof.
  intros (body & k & -> & Hbody & _) E.
  assert (Hin : In seg (body ++ dotdots k)).
  { apply in_rev. rewrite E. now left. }
  apply in_app_or in Hin as [Hin | Hin].
  - rewrite forallb_forall in Hbody. specialize (Hbody _ Hin). unfold plain in Hbody.
    apply andb_true_iff in Hbody as [Hb Hfree]. apply andb_true_iff in Hb as [Hkept _].
    destruct seg as [|c rest]; [discriminate|]. exists c, rest. split; [reflexivity|].
    cbn in Hfree. apply andb_true_iff in Hfree as [Hc _]. now apply negb_true_iff in Hc.
  - apply repeat_spec in Hin. subst seg. now exists (ch "."), [ch "."].
Qed.

Lemma join_segments_cons seg segs :
  exists rest, join_segments (seg :: segs) = seg ++ rest.
Proof.
  destruct segs as [|seg' segs].
  - exists []. cbn. now rewrite app_nil_r.
  - now exists (slash :: join_segments (seg' :: segs)).
Qed.

(** A normalized path that has segments resolves to them. *)
Lemma resolve_rendered (absolute trailing : bool) stack seg segs :
  normal_stack (negb absolute) stack ->
  rev stack = seg :: segs ->
  resolve ((if absolute then [slash] else []) ++ join_segments (seg :: segs)
           ++ (if trailing then [slash] else []))
  = (absolute, seg :: segs).
Proof.
  intros Hnormal Hsegs.
  set (out := (if absolute then [slash] else []) ++ join_segments (seg :: segs)
              ++ (if trailing then [slash] else [])).
  assert (Habs : is_absolute out = absolute).
  { subst out. destruct absolute; [reflexivity|]. cbn [app].
    destruct (normal_stack_last _ _ _ _ Hnormal Hsegs) as (c & rest & -> & Hc).
    destruct (join_segments_cons (c :: rest) segs) as [tail ->]. cbn. exact Hc. }
  assert (Hfree : forallb slash_free (seg :: segs) = true).
  { rewrite <- Hsegs, forallb_rev_list. eapply normal_stack_slash_free; eassumption. }
  assert (Hsplit : split out
                   = (if absolute then [[]] else []) ++ (seg :: segs)
                     ++ (if trailing then [[]] else [])).
  { subst out. destruct absolute; destruct trailing; cbn [app].
    - change (slash :: join_segments (seg :: segs) ++ [slash])
        with ([] ++ slash :: join_segments (seg :: segs) ++ [slash]).
      rewrite split_app_slash, split_app_slash, split_join by (discriminate || assumption).
      reflexivity.
    - rewrite app_nil_r.
      change (slash :: join_segments (seg :: segs))
        with ([] ++ slash :: join_segments (seg :: segs)).
      rewrite split_app_slash, split_join by (discriminate || assumption).
      now rewrite app_nil_r.
    - rewrite split_app_slash, split_join by (discriminate || assumption). reflexivity.
    - rewrite !app_nil_r. now rewrite split_join by (discriminate || assumption). }
  unfold resolve. rewrite Habs. f_equal.
  rewrite Hsplit, !fold_left_app.
  assert (Hskip : forall (b : bool) st,
             fold_left (norm_step (negb absolute)) (if b then [[]] else []) st = st).
  { intros [] st; reflexivity. }
  rewrite !Hskip. rewrite <- Hsegs, fold_norm_again by assumption.
  reflexivity.
Qed.

Lemma path_normalize_nonempty p :
  p <> [] ->
  path_normalize p
  = let segs := snd (resolve p) in
    let trailing := match rev p with c :: _ => c =? slash | [] => false end in
    match segs with
    | [] => if is_absolute p then lit "/" else if trailing then lit "./" else lit "."
    | _ :: _ => (if is_absolute p then [slash] else []) ++ join_segments segs
                ++ (if trailing then [slash] else [])
    end.
Proof. destruct p; [contradiction | reflexivity]. Qed.

(** [path.normalize] does not change what a path resolves to. *)
Lemma resolve_normalize p : resolve (path_normalize p) = resolve p.
Proof.
  destruct p as [|c0 p0]; [reflexivity|].
  rewrite path_normalize_nonempty by discriminate.
  set (p := c0 :: p0).
  pose proof (resolve_normal p) as Hnormal.
  set (stack := fold_left (norm_step (negb (is_absolute p))) (split p) []) in *.
  change (resolve p) with (is_absolute p, rev stack). cbn [snd]. cbv zeta.
  destruct (rev stack) as [|seg segs] eqn:Hsegs.
  - destruct (is_absolute p); [reflexivity|].
    match goal with |- context [if ?b then _ else _] => destruct b end; reflexivity.
  - now apply resolve_rendered with (stack := stack).
Qed.

(** Where [path.join(root, rel)] lies. *)
Lemma lies_under_join root rel :
  lies_under root (path_join root rel) = stays_under root rel.
Proof.
  unfold lies_under, stays_under, path_join. now rewrite resolve_normalize.
Qed.

(** C4 as stated fails: a key that climbs with [..] is decoded to a path
    that the writer resolves outside the output root. *)
Lemma sources_key_escapes_counterexample :
  let raw := json_lit "{'language':'Solidity','sources':{'../../etc/x.sol':{'content':'a'}}}" in
  parseSourceCode raw
  = Normal [{| path := lit "../../etc/x.sol"; content := VStr (lit "a") |}] /\
  path_join (lit "/out/c") (lit "../../etc/x.sol") = lit "/etc/x.sol" /\
  stays_under (lit "/out/c") (lit "../../etc/x.sol") = false /\
  lies_under (lit "/out/c") (lit "/etc/x.sol") = false /\
  written_paths
    (trace_of (make_world (FsFail (lit "ENOENT")) (fun _ _ => Abrupt (AxiosError None)))
              (saveContractFiles (fun _ => VNum NaN)
                 (VObj [(lit "SourceCode", VStr raw)]) (lit "/out/c")))
  = [lit "/etc/x.sol"; lit "/out/c/metadata.json"].
Proof.
  cbv zeta. repeat split; reflexivity.
Qed.

(* ================================================================== *)
(** * Running programs *)
(* ================================================================== *)

(** One awaited request in the proofs of [run_bind] and [run_catch]:
    the continuation is run one request later. *)
Ltac run_node IH :=
  rewrite IH;
  match goal with
  | |- context [run ?w (S ?t) ?p] => destruct (run w (S t) p) as [tr [a|e]]
  end;
  try reflexivity;
  cbn [List.length]; rewrite Nat.add_succ_r; cbn [Nat.add];
  match goal with
  | |- context [run ?w (S ?n) ?p] => now destruct (run w (S n) p)
  end.

Lemma run_bind {A B} (w : world) (p : prog A) (f : A -> prog B) : forall t,
  run w t (bind p f)
  = match run w t p with
    | (tr, Normal a) =>
        let (tr', r) := run w (t + List.length tr) (f a) in (tr ++ tr', r)
    | (tr, Abrupt e) => (tr, Abrupt e)
    end.
Proof.
  induction p as [a|e|k IH|q k IH|d k IH|d x k IH]; intros t; cbn [bind run].
  - rewrite Nat.add_0_r. now destruct (run w t (f a)).
  - reflexivity.
  - run_node IH.
  - run_node IH.
  - run_node IH.
  - run_node IH.
Qed.

Lemma run_catch {A} (w : world) (p : prog A) (h : exn -> prog A) : forall t,
  run w t (catch p h)
  = match run w t p with
    | (tr, Normal a) => (tr, Normal a)
    | (tr, Abrupt e) =>
        let (tr', r) := run w (t + List.length tr) (h e) in (tr ++ tr', r)
    end.
Proof.
  induction p as [a|e|k IH|q k IH|d k IH|d x k IH]; intros t; cbn [catch run].
  - reflexivity.
  - rewrite Nat.add_0_r. now destruct (run w t (h e)).
  - run_node IH.
  - run_node IH.
  - run_node IH.
  - run_node IH.
Qed.

(** Big-step rules for sequencing and for [try]/[catch]. *)
Lemma run_bind_normal {A B} w t (p : prog A) (f : A -> prog B) tr a tr' r :
  run w t p = (tr, Normal a) ->
  run w (t + List.length tr) (f a) = (tr', r) ->
  run w t (bind p f) = (tr ++ tr', r).
Proof. intros Hp Hf. now rewrite run_bind, Hp, Hf. Qed.

Lemma run_bind_abrupt {A B} w t (p : prog A) (f : A -> prog B) tr e :
  run w t p = (tr, Abrupt e) ->
  run w t (bind p f) = (tr, Abrupt e).
Proof. intros Hp. now rewrite run_bind, Hp. Qed.

Lemma run_catch_normal {A} w t (p : prog A) h tr a :
  run w t p = (tr, Normal a) ->
  run w t (catch p h) = (tr, Normal a).
Proof. intros Hp. now rewrite run_catch, Hp. Qed.

Lemma run_catch_abrupt {A} w t (p : prog A) h tr e tr' r :
  run w t p = (tr, Abrupt e) ->
  run w (t + List.length tr) (h e) = (tr', r) ->
  run w t (catch p h) = (tr ++ tr', r).
Proof. intros Hp Hh. now rewrite run_catch, Hp, Hh. Qed.

Lemma run_lift {A} w t (c : completion A) : run w t (lift c) = ([], c).
Proof. now destruct c. Qed.

Lemma run_axios_get w t q :
  run w t (axios_get q) = ([EHttpGet q], http w t q).
Proof. unfold axios_get. cbn [run]. now rewrite run_lift. Qed.

(** [getApiKey] makes no request to the transport. *)
Lemma getApiKey_run w t c :
  exists tr r, run w t (getApiKey c) = (tr, r) /\ http_calls tr = 0%nat.
Proof.
  unfold getApiKey. destruct (truthy (apiKey c)); cbn [run].
  - now exists [], (Normal (apiKey c)).
  - destruct (key_file w t); cbn [run]; eexists _, _; split; reflexivity.
Qed.

(** C8.  For a chain id that is not in [CHAIN_CONFIGS],
    [fetchContractSource] makes no call to the transport in any run.
    The API key is resolved first (line 89): once it is resolved the
    error thrown is the unsupported-chain error, and when it cannot be
    read the error of [getApiKey] is thrown instead. *)
Theorem unsupported_chain_no_request
        (w : world) (c : client) (chainId : Z) (address : jsstring) :
  chain_config CHAIN_CONFIGS chainId = None ->
  http_calls (trace_of w (fetchContractSource c chainId address)) = 0%nat /\
  (forall tr key,
     run w 0 (getApiKey c) = (tr, Normal key) ->
     outcome_of w (fetchContractSource c chainId address)
     = Abrupt (Error (Unsupported_chain_ID chainId))) /\
  (forall tr e,
     run w 0 (getApiKey c) = (tr, Abrupt e) ->
     outcome_of w (fetchContractSource c chainId address) = Abrupt e).
Proof.
  intros Hchain. unfold trace_of, outcome_of, fetchContractSource, validateChainId.
  rewrite Hchain. cbn [lift bind]. rewrite run_bind.
  destruct (getApiKey_run w 0 c) as [tr [r [Hrun Hcalls]]]. rewrite Hrun.
  split; [|split].
  - destruct r as [key|e]; cbn; [rewrite app_nil_r|]; exact Hcalls.
  - intros tr' key E. injection E as -> ->. reflexivity.
  - intros tr' e E. injection E as -> ->. reflexivity.
Qed.

Lemma unsupported_chain_no_request_witness :
  let w := make_world (FsFail (lit "ENOENT")) (fun _ _ => Abrupt (AxiosError None)) in
  let c := {| apiKey := VStr (lit "KEY") |} in
  chain_config CHAIN_CONFIGS 999 = None /\
  http_calls (trace_of w (fetchContractSource c 999 (lit "0xabc"))) = 0%nat /\
  outcome_of w (fetchContractSource c 999 (lit "0xabc"))
  = Abrupt (Error (Unsupported_chain_ID 999)).
Proof.
  cbv zeta. split; [reflexivity|].
  destruct (unsupported_chain_no_request
              (make_world (FsFail (lit "ENOENT")) (fun _ _ => Abrupt (AxiosError None)))
              {| apiKey := VStr (lit "KEY") |} 999 (lit "0xabc") eq_refl) as [Hcalls [Hout _]].
  split; [exact Hcalls|].
  exact (Hout [] (VStr (lit "KEY")) eq_refl).
Defined.

(* ================================================================== *)
(** * The bytecode probe *)
(* ================================================================== *)

Lemma get_nullish v k : is_nullish v = true -> get v k = Abrupt TypeError.
Proof. destruct v; cbn [is_nullish]; try discriminate; reflexivity. Qed.

Lemma get_normal_not_nullish v k x : get v k = Normal x -> is_nullish v = false.
Proof.
  intros H. destruct (is_nullish v) eqn:E; [|reflexivity].
  rewrite (get_nullish _ _ E) in H. discriminate.
Qed.

Lemma truthy_not_empty v : truthy v = true -> is_string v (lit "") = false.
Proof. destruct v as [| | | |[|c s]| |]; cbn; congruence. Qed.

Lemma falsy_not_0x v : truthy v = false -> is_string v (lit "0x") = false.
Proof. destruct v as [| | | |[|c s]| |]; cbn; congruence. Qed.

(** [isContract] answers false exactly when the probe's response carries
    the result '0x'; a rejected request and a response it cannot read
    both count as a contract. *)
Lemma isContract_run w t c chainId address tr1 key :
  run w t (getApiKey c) = (tr1, Normal key) ->
  run w t (isContract c chainId address)
  = (tr1 ++ [EHttpGet (code_request chainId address key)],
     Normal (negb (reports_no_code
                     (http w (t + List.length tr1) (code_request chainId address key))))).
Proof.
  intros Hkey. unfold isContract. eapply run_bind_normal; [eassumption|].
  rewrite run_catch, run_bind, run_axios_get. unfold reports_no_code.
  destruct (http w (t + List.length tr1) (code_request chainId address key))
    as [data|e]; [|reflexivity].
  destruct (is_nullish data) eqn:Hnull.
  - rewrite !(get_nullish data) by assumption. reflexivity.
  - destruct (get_not_nullish data (lit "status") Hnull) as [status Hs].
    destruct (get_not_nullish data (lit "result") Hnull) as [result Hr].
    rewrite Hs, Hr. cbn [lift bind List.length].
    destruct (is_string status (lit "1")).
    + cbn [lift bind]. destruct (truthy result) eqn:Ht; cbn [run].
      * rewrite (truthy_not_empty _ Ht), andb_true_r. reflexivity.
      * rewrite (falsy_not_0x _ Ht). reflexivity.
    + cbn [run]. now destruct (is_string result (lit "0x")).
Qed.

(* ================================================================== *)
(** * fetchContractSource *)
(* ================================================================== *)

(** A response with the success status whose first entry has no source
    code: the two requests that are made, and the error that is thrown. *)
Lemma fetch_empty_source_run
      w c chainId address tr0 tr1 key key' data entry sourceCode name :
  run w 0 (getApiKey c) = (tr0, Normal key) ->
  chain_config CHAIN_CONFIGS chainId = Some name ->
  http w (List.length tr0) (source_request chainId address key) = Normal data ->
  success_entry data entry ->
  get entry (lit "SourceCode") = Normal sourceCode ->
  truthy sourceCode = false ->
  run w (List.length tr0 + 1) (getApiKey c) = (tr1, Normal key') ->
  run w 0 (fetchContractSource c chainId address)
  = (tr0 ++ EHttpGet (source_request chainId address key)
         :: tr1 ++ [EHttpGet (code_request chainId address key')],
     Abrupt (Error
       (if reports_no_code
             (http w (List.length tr0 + 1 + List.length tr1)
                   (code_request chainId address key'))
        then EOA_address address
        else Unverified_contract address))).
Proof.
  intros Hkey Hchain Hhttp (status & result & len & Hs & H1 & Hr & Ht & Hl & Hz & H0)
         Hsrc Hempty Hkey'.
  unfold fetchContractSource, validateChainId. rewrite Hchain.
  eapply run_bind_normal; [eassumption|]. cbn [lift bind Nat.add].
  rewrite run_catch, run_bind, run_axios_get, Hhttp.
  rewrite Hs. cbn [lift bind]. rewrite H1. cbn [negb].
  rewrite Hr. cbn [lift bind]. rewrite Ht, Hl. cbn [lift bind negb orb]. rewrite Hz.
  rewrite H0. cbn [lift bind]. rewrite Hsrc. cbn [lift bind]. rewrite Hempty.
  cbn [negb orb List.length]. rewrite run_bind.
  rewrite (isContract_run _ _ _ _ _ _ _ Hkey').
  destruct (reports_no_code _); cbn [negb run rethrow]; now rewrite !app_nil_r.
Qed.

(** C1.  When the getsourcecode response carries the success status and
    its first entry has an empty or absent source code, the error
    [fetchContractSource] throws is decided by the eth_getCode probe:
    the EOA error when the probe's result is '0x'; the
    unverified-contract error when the result is any other string, when
    the request is rejected, and when the response is read in any other
    way than as carrying the result '0x'. *)
Theorem empty_source_classified_by_probe
        (w : world) (c : client) (chainId : Z) (address name : jsstring)
        (tr0 tr1 : list event) (key key' data entry sourceCode : value) :
  run w 0 (getApiKey c) = (tr0, Normal key) ->
  chain_config CHAIN_CONFIGS chainId = Some name ->
  http w (List.length tr0) (source_request chainId address key) = Normal data ->
  success_entry data entry ->
  get entry (lit "SourceCode") = Normal sourceCode ->
  truthy sourceCode = false ->
  run w (List.length tr0 + 1) (getApiKey c) = (tr1, Normal key') ->
  forall answer,
    answer = http w (List.length tr0 + 1 + List.length tr1)
                  (code_request chainId address key') ->
    (forall probe,
       answer = Normal probe ->
       get probe (lit "result") = Normal (VStr (lit "0x")) ->
       outcome_of w (fetchContractSource c chainId address)
       = Abrupt (Error (EOA_address address))) /\
    (forall probe code,
       answer = Normal probe ->
       get probe (lit "result") = Normal (VStr code) ->
       str_eqb code (lit "0x") = false ->
       outcome_of w (fetchContractSource c chainId address)
       = Abrupt (Error (Unverified_contract address))) /\
    (forall e,
       answer = Abrupt e ->
       outcome_of w (fetchContractSource c chainId address)
       = Abrupt (Error (Unverified_contract address))) /\
    (reports_no_code answer = false ->
     outcome_of w (fetchContractSource c chainId address)
     = Abrupt (Error (Unverified_contract address))).
Proof.
  intros Hkey Hchain Hhttp Hentry Hsrc Hempty Hkey' answer ->.
  unfold outcome_of.
  rewrite (fetch_empty_source_run _ _ _ _ _ _ _ _ _ _ _ _
             Hkey Hchain Hhttp Hentry Hsrc Hempty Hkey').
  cbn [snd]. repeat split.
  - intros probe -> Hres. cbn [reports_no_code]. now rewrite Hres.
  - intros probe code -> Hres Hcode. cbn [reports_no_code]. rewrite Hres.
    cbn [is_string]. now rewrite Hcode.
  - intros e ->. reflexivity.
  - intros ->. reflexivity.
Qed.

Lemma empty_source_classified_by_probe_witness :
  let w := make_world (FsFail (lit "ENOENT"))
             (fun _ q =>
                if str_eqb (action q) (lit "getsourcecode")
                then JSON_parse (json_lit "{'status':'1','message':'OK','result':[{'SourceCode':'','ContractName':''}]}")
                else JSON_parse (json_lit "{'jsonrpc':'2.0','id':1,'result':'0x'}")) in
  outcome_of w (fetchContractSource {| apiKey := VStr (lit "KEY") |} 1 (lit "0xabc"))
  = Abrupt (Error (EOA_address (lit "0xabc"))).
Proof.
  cbv zeta.
  pose (w := make_world (FsFail (lit "ENOENT"))
             (fun _ q =>
                if str_eqb (action q) (lit "getsourcecode")
                then JSON_parse (json_lit "{'status':'1','message':'OK','result':[{'SourceCode':'','ContractName':''}]}")
                else JSON_parse (json_lit "{'jsonrpc':'2.0','id':1,'result':'0x'}"))).
  pose (c := {| apiKey := VStr (lit "KEY") |}).
  pose (entry := VObj [(lit "SourceCode", VStr (lit "")); (lit "ContractName", VStr (lit ""))]).
  pose (data := VObj [(lit "status", VStr (lit "1")); (lit "message", VStr (lit "OK"));
                      (lit "result", VArr [entry])]).
  pose (probe := VObj [(lit "jsonrpc", VStr (lit "2.0")); (lit "id", VNum (Dec false 1 0));
                       (lit "result", VStr (lit "0x"))]).
  assert (Hentry : success_entry data entry).
  { exists (VStr (lit "1")), (VArr [entry]), (num_of_N 1). repeat split; reflexivity. }
  destruct (empty_source_classified_by_probe
              w c 1 (lit "0xabc") (lit "Ethereum Mainnet") [] []
              (VStr (lit "KEY")) (VStr (lit "KEY")) data entry (VStr (lit ""))
              eq_refl eq_refl eq_refl Hentry eq_refl eq_refl eq_refl
              (Normal probe) eq_refl) as [Heoa _].
  exact (Heoa probe eq_refl eq_refl).
Defined.




(* ================================================================== *)
(** * saveContractFiles *)
(* ================================================================== *)

Lemma lookup_set_prop_same ps k v : lookup k (set_prop ps k v) = Some v.
Proof.
  induction ps as [|[k' v'] ps IH]; cbn.
  - now rewrite str_eqb_refl.
  - destruct (str_eqb k k') eqn:E; cbn; rewrite E; [reflexivity | exact IH].
Qed.

Lemma lookup_set_prop_other ps k k' v :
  str_eqb k k' = false -> lookup k (set_prop ps k' v) = lookup k ps.
Proof.
  intros Hne. induction ps as [|[kx vx] ps IH]; cbn.
  - now rewrite Hne.
  - destruct (str_eqb k' kx) eqn:E; cbn.
    + apply str_eqb_eq in E. subst kx. now rewrite Hne.
    + now rewrite IH.
Qed.


Section WriterFacts.

Variable parseInt : value -> value.
Variable w : world.
Hypothesis disk : disk_accepts w.

Lemma run_fs_mkdir t p : run w t (fs_mkdir p) = ([EMkdir p], Normal tt).
Proof. unfold fs_mkdir. cbn [run]. now rewrite (proj1 disk). Qed.

Lemma run_fs_writeFile_text t p text :
  run w t (fs_writeFile p (Data (VStr text))) = ([EWriteFile p (Data (VStr text))], Normal tt).
Proof. unfold fs_writeFile. cbn [run]. now rewrite (proj2 disk). Qed.

Lemma run_fs_writeFile_json t p v :
  run w t (fs_writeFile p (Json_stringify v)) = ([EWriteFile p (Json_stringify v)], Normal tt).
Proof. unfold fs_writeFile. cbn [run]. now rewrite (proj2 disk). Qed.

Lemma write_files_run localPath files :
  text_files files = true ->
  forall t savedFiles,
  run w t (write_files localPath files savedFiles)
  = (flat_map (file_events localPath) files,
     Normal (savedFiles ++ map (fun f => path_join localPath (path f)) files)).
Proof.
  induction files as [|f files IH]; intros Htext t savedFiles;
    cbn [write_files flat_map map].
  - cbn [run]. now rewrite app_nil_r.
  - cbn in Htext. apply andb_true_iff in Htext as [Hf Hfiles].
    unfold file_events at 1.
    destruct (content f) as [| | | |text| |]; try discriminate.
    rewrite run_bind, run_fs_mkdir, run_bind, run_fs_writeFile_text, IH by assumption.
    cbn [app]. now rewrite <- app_assoc.
Qed.

(** The requests of [saveContractFiles] and its result, on a disk that
    accepts every operation, when every decoded content is a string. *)
Lemma saveContractFiles_run contract localPath src files metadata :
  get contract (lit "SourceCode") = Normal (VStr src) ->
  parseSourceCode src = Normal files ->
  text_files files = true ->
  build_metadata parseInt contract = Normal metadata ->
  run w 0 (saveContractFiles parseInt contract localPath)
  = (EMkdir localPath
       :: flat_map (file_events localPath) files
       ++ [EWriteFile (path_join localPath (lit "metadata.json")) (Json_stringify metadata)],
     Normal (map (fun f => path_join localPath (path f)) files
             ++ [path_join localPath (lit "metadata.json")])).
Proof.
  intros Hsrc Hfiles Htext Hmeta. unfold saveContractFiles.
  rewrite Hsrc. cbn [lift bind call_parseSourceCode]. rewrite Hfiles. cbn [lift bind].
  rewrite run_bind, run_fs_mkdir, run_bind, write_files_run by assumption.
  rewrite Hmeta. cbn [lift bind app]. rewrite run_bind, run_fs_writeFile_json.
  cbn [run app]. reflexivity.
Qed.

End WriterFacts.

(** The metadata object has the nested [proxyInfo] exactly when the
    record has a truthy one. *)
Lemma build_metadata_proxyInfo parseInt contract proxyInfo :
  get contract (lit "proxyInfo") = Normal proxyInfo ->
  exists metadata,
    build_metadata parseInt contract = Normal (VObj metadata) /\
    lookup (lit "proxyInfo") metadata
    = if truthy proxyInfo then Some proxyInfo else None.
Proof.
  intros Hpi. pose proof (get_normal_not_nullish _ _ _ Hpi) as Hn.
  unfold build_metadata. rewrite Hpi.
  repeat match goal with
         | |- context [get contract ?k] =>
             destruct (get_not_nullish contract k Hn) as [? ->]
         end.
  cbn [cbind]. destruct (truthy proxyInfo); eexists; (split; [reflexivity|]).
  - apply lookup_set_prop_same.
  - reflexivity.
Qed.



(* ================================================================== *)
(** * What saveContractFiles writes, on any disk *)
(* ================================================================== *)

Lemma written_paths_app tr1 tr2 :
  written_paths (tr1 ++ tr2) = written_paths tr1 ++ written_paths tr2.
Proof.
  induction tr1 as [|[| | |p d] tr1 IH]; cbn; try exact IH; [reflexivity|].
  now rewrite IH.
Qed.

Lemma run_fs_mkdir_any w t p :
  run w t (fs_mkdir p)
  = ([EMkdir p],
     match mkdir w t p with FsOk _ => Normal tt | FsFail cause => Abrupt (FsError cause) end).
Proof. unfold fs_mkdir. cbn [run]. now destruct (mkdir w t p). Qed.

Lemma run_fs_writeFile_json_any w t p v :
  run w t (fs_writeFile p (Json_stringify v))
  = ([EWriteFile p (Json_stringify v)],
     match write_file w t p (Json_stringify v) with
     | FsOk _ => Normal tt
     | FsFail cause => Abrupt (FsError cause)
     end).
Proof. unfold fs_writeFile. cbn [run]. now destruct (write_file w t p _). Qed.

(** One [fs.writeFile] of a content: it is refused before the disk is
    asked, or the disk is asked once and the write is done, fails on the
    disk, or stops at an element that is no chunk. *)
Lemma run_fs_writeFile_any w t p v :
  (run w t (fs_writeFile p (Data v)) = ([], Abrupt TypeError) /\ is_text v = false) \/
  (run w t (fs_writeFile p (Data v)) = ([EWriteFile p (Data v)], Abrupt TypeError)
   /\ is_text v = false) \/
  (exists cause,
     run w t (fs_writeFile p (Data v)) = ([EWriteFile p (Data v)], Abrupt (FsError cause))) \/
  run w t (fs_writeFile p (Data v)) = ([EWriteFile p (Data v)], Normal tt).
Proof.
  destruct v as [| | | |text|chunks|ps]; try (left; split; reflexivity);
    right; unfold fs_writeFile; cbn [run].
  - destruct (write_file w t p _) as [[]|cause]; [right; right | right; left; eexists];
      reflexivity.
  - destruct (write_file w t p _) as [[]|cause]; [|right; left; eexists; reflexivity].
    destruct (forallb buffer_from_accepts chunks);
      [right; right | left; split]; reflexivity.
Qed.

(** The writing loop on any disk: every write is the write of a decoded
    file to its joined path; what the loop returns is what it wrote; and
    it fails with the error of the disk, or with a TypeError when some
    content is not a string. *)
Lemma write_files_any w localPath files : forall t savedFiles,
  exists tr r,
    run w t (write_files localPath files savedFiles) = (tr, r) /\
    (forall p d, In (EWriteFile p d) tr ->
       exists f, In f files /\ d = Data (content f) /\ p = path_join localPath (path f)) /\
    match r with
    | Normal paths => paths = savedFiles ++ written_paths tr
    | Abrupt e => (exists cause, e = FsError cause) \/ (e = TypeError /\ text_files files = false)
    end.
Proof.
  induction files as [|f files IH]; intros t savedFiles; cbn [write_files].
  - exists [], (Normal savedFiles). split; [reflexivity|].
    split; [intros p d []|]. now rewrite app_nil_r.
  - rewrite run_bind, run_fs_mkdir_any.
    destruct (mkdir w t _) as [[]|cause].
    2:{ eexists _, _. split; [reflexivity|]. split.
        - intros p d [E|[]]. discriminate.
        - left. now eexists. }
    rewrite run_bind.
    assert (Hfalse : is_text (content f) = false -> text_files (f :: files) = false).
    { intros H. cbn. now rewrite H. }
    destruct (run_fs_writeFile_any w
                (t + List.length [EMkdir (path_dirname (path_join localPath (path f)))])
                (path_join localPath (path f)) (content f))
      as [[-> Hf] | [[-> Hf] | [[cause ->] | ->]]].
    + eexists _, _. split; [reflexivity|]. split.
      * intros p d [E|[]]. discriminate.
      * right. split; [reflexivity | now apply Hfalse].
    + eexists _, _. split; [reflexivity|]. split.
      * intros p d [E|[E|[]]]; [discriminate|]. injection E as <- <-.
        exists f. split; [now left|]. split; reflexivity.
      * right. split; [reflexivity | now apply Hfalse].
    + eexists _, _. split; [reflexivity|]. split.
      * intros p d [E|[E|[]]]; [discriminate|]. injection E as <- <-.
        exists f. split; [now left|]. split; reflexivity.
      * left. now eexists.
    + match goal with
      | |- context [run w ?t' (write_files localPath files ?saved)] =>
          destruct (IH t' saved) as (tr & r & Hrun & Hev & Hr); rewrite Hrun
      end.
      eexists _, _. split; [reflexivity|]. split.
      * cbn [app]. intros p d [E|[E|Hin]]; [discriminate| |].
        -- injection E as <- <-. exists f. split; [now left|]. split; reflexivity.
        -- destruct (Hev p d Hin) as (f' & Hin' & Hd & Hp).
           exists f'. split; [now right|]. split; assumption.
      * destruct r as [paths|e].
        -- rewrite Hr. cbn [app written_paths]. now rewrite <- app_assoc.
        -- destruct Hr as [Hr | [Hr Htext]]; [now left|].
           right. split; [exact Hr|].
           change (text_files (f :: files)) with (is_text (content f) && text_files files).
           rewrite Htext. apply andb_false_r.
Qed.

(** [saveContractFiles] on any disk, for a record whose source code is a
    string. *)
Lemma saveContractFiles_any parseInt w contract localPath src files :
  get contract (lit "SourceCode") = Normal (VStr src) ->
  parseSourceCode src = Normal files ->
  exists tr r,
    run w 0 (saveContractFiles parseInt contract localPath) = (tr, r) /\
    (forall p d, In (EWriteFile p d) tr ->
       (exists metadata,
          d = Json_stringify metadata /\ p = path_join localPath (lit "metadata.json")) \/
       (exists f, In f files /\ d = Data (content f) /\ p = path_join localPath (path f))) /\
    match r with
    | Normal paths =>
        paths = written_paths tr /\ last paths [] = path_join localPath (lit "metadata.json")
    | Abrupt e => (exists cause, e = FsError cause) \/ (e = TypeError /\ text_files files = false)
    end.
Proof.
  intros Hsrc Hfiles.
  destruct (get_not_nullish contract (lit "proxyInfo")
              (get_normal_not_nullish _ _ _ Hsrc)) as [proxyInfo Hpi].
  destruct (build_metadata_proxyInfo parseInt _ _ Hpi) as [metadata [Hmeta _]].
  unfold saveContractFiles.
  rewrite Hsrc. cbn [lift bind call_parseSourceCode]. rewrite Hfiles. cbn [lift bind].
  rewrite run_bind, run_fs_mkdir_any.
  destruct (mkdir w 0 localPath) as [[]|cause].
  2:{ eexists _, _. split; [reflexivity|]. split.
      - intros p d [E|[]]. discriminate.
      - left. now eexists. }
  rewrite run_bind.
  destruct (write_files_any w localPath files (0 + List.length [EMkdir localPath]) [])
    as (tr & r & Hrun & Hev & Hr).
  rewrite Hrun. destruct r as [saved|e].
  2:{ eexists _, _. split; [reflexivity|]. split.
      - cbn [app]. intros p d [E|Hin]; [discriminate|].
        right. now apply Hev.
      - exact Hr. }
  rewrite Hmeta. cbn [lift bind]. rewrite run_bind, run_fs_writeFile_json_any.
  assert (Hevents : forall p d,
             In (EWriteFile p d)
                ([EMkdir localPath] ++ tr
                 ++ [EWriteFile (path_join localPath (lit "metadata.json"))
                       (Json_stringify (VObj metadata))]) ->
             (exists metadata0,
                d = Json_stringify metadata0 /\ p = path_join localPath (lit "metadata.json")) \/
             (exists f, In f files /\ d = Data (content f) /\ p = path_join localPath (path f))).
  { cbn [app]. intros p d [E|Hin]; [discriminate|].
    apply in_app_or in Hin as [Hin|[E|[]]].
    - right. now apply Hev.
    - injection E as <- <-. left. now eexists. }
  destruct (write_file w _ _ _) as [[]|cause].
  - eexists _, _. split; [reflexivity|]. rewrite app_nil_r. split; [exact Hevents|].
    cbn [app] in Hr. subst saved. split; [|apply last_last].
    cbn [app written_paths]. now rewrite written_paths_app.
  - eexists _, _. split; [reflexivity|]. split; [exact Hevents|]. left. now eexists.
Qed.

(** C4, as the code has it.  [parseSourceCode] hands the keys of the
    sources on as paths without checking them, and [saveContractFiles]
    writes each decoded file at [path.join] of the output root and that
    path.  On any disk, every write of [saveContractFiles] is the write
    of metadata.json, which lies under a non-empty output root, or the
    write of a decoded file at its joined path, which lies under the
    root when the path of the file has no [..] segment: the join
    re-roots an absolute key under the root.  On a disk that accepts
    every operation, when the contents are strings, every decoded file is
    written there. *)
Theorem decoded_path_without_dotdot_stays_under
        (parseInt : value -> value) (w : world) (contract : value)
        (raw : jsstring) (files : list file) (localPath : jsstring) :
  get contract (lit "SourceCode") = Normal (VStr raw) ->
  parseSourceCode raw = Normal files ->
  localPath <> [] ->
  (forall p d,
     In (EWriteFile p d) (trace_of w (saveContractFiles parseInt contract localPath)) ->
     (exists metadata,
        d = Json_stringify metadata /\
        p = path_join localPath (lit "metadata.json") /\
        lies_under localPath p = true) \/
     (exists f,
        In f files /\ d = Data (content f) /\
        p = path_join localPath (path f) /\
        (no_dotdot (path f) = true -> lies_under localPath p = true))) /\
  (disk_accepts w ->
   text_files files = true ->
   forall f,
     In f files ->
     In (EWriteFile (path_join localPath (path f)) (Data (content f)))
        (trace_of w (saveContractFiles parseInt contract localPath))).
Proof.
  intros Hsrc Hfiles Hroot. split.
  - intros p d Hin. unfold trace_of in Hin.
    destruct (saveContractFiles_any parseInt w contract localPath raw files Hsrc Hfiles)
      as (tr & r & Hrun & Hev & _).
    rewrite Hrun in Hin. cbn [fst] in Hin.
    destruct (Hev p d Hin) as [(metadata & Hd & Hp) | (f & Hf & Hd & Hp)].
    + left. exists metadata. split; [exact Hd|]. split; [exact Hp|].
      rewrite Hp, lies_under_join. now apply join_stays_under.
    + right. exists f. split; [exact Hf|]. split; [exact Hd|]. split; [exact Hp|].
      intros Hrel. rewrite Hp, lies_under_join. now apply join_stays_under.
  - intros Hdisk Htext f Hin.
    destruct (get_not_nullish contract (lit "proxyInfo")
                (get_normal_not_nullish _ _ _ Hsrc)) as [proxyInfo Hpi].
    destruct (build_metadata_proxyInfo parseInt _ _ Hpi) as [metadata [Hmeta _]].
    unfold trace_of.
    rewrite (saveContractFiles_run parseInt w Hdisk contract localPath raw files _
               Hsrc Hfiles Htext Hmeta).
    cbn [fst]. right. apply in_or_app. left. apply in_flat_map.
    exists f. split; [exact Hin|]. right. now left.
Qed.

Lemma decoded_path_without_dotdot_stays_under_witness :
  let w := make_world (FsFail (lit "ENOENT")) (fun _ _ => Abrupt (AxiosError None)) in
  let raw := json_lit "{{'sources':{'solc_0.8/contracts/token/ERC20.sol':{'content':'X'}}}}" in
  In (EWriteFile (lit "/out/usdc/contracts/token/ERC20.sol") (Data (VStr (lit "X"))))
     (trace_of w (saveContractFiles (fun _ => VNum NaN)
                    (VObj [(lit "SourceCode", VStr raw)]) (lit "/out/usdc"))) /\
  lies_under (lit "/out/usdc") (lit "/out/usdc/contracts/token/ERC20.sol") = true.
Proof.
  cbv zeta.
  pose (w := make_world (FsFail (lit "ENOENT")) (fun _ _ => Abrupt (AxiosError None))).
  pose (raw := json_lit "{{'sources':{'solc_0.8/contracts/token/ERC20.sol':{'content':'X'}}}}").
  pose (f := {| path := lit "contracts/token/ERC20.sol"; content := VStr (lit "X") |}).
  destruct (decoded_path_without_dotdot_stays_under (fun _ => VNum NaN) w
              (VObj [(lit "SourceCode", VStr raw)]) raw [f] (lit "/out/usdc")
              eq_refl eq_refl ltac:(discriminate)) as [Hunder Hwritten].
  assert (Hdisk : disk_accepts w) by (split; reflexivity).
  pose proof (Hwritten Hdisk eq_refl f (or_introl eq_refl)) as Hin.
  split; [exact Hin|].
  destruct (Hunder _ _ Hin) as [(metadata & Hd & _) | (f' & [<-|[]] & _ & _ & Hrel)].
  - discriminate.
  - exact (Hrel eq_refl).
Defined.

(* ================================================================== *)
(** * Proxy contracts *)
(* ================================================================== *)








(* ================================================================== *)
(** * More on the decoder *)
(* ================================================================== *)

Lemma startsWith_app s p : startsWith s p = true -> s = p ++ skipn (List.length p) s.
Proof.
  revert s. induction p as [|y p IH]; intros s H; [reflexivity|].
  destruct s as [|x s]; cbn in H; [discriminate|].
  apply andb_true_iff in H as [Hx Hs]. apply N.eqb_eq in Hx. subst y.
  cbn. f_equal. now apply IH.
Qed.

Lemma skip_version_split s :
  exists version,
    s = version ++ skip_version s /\ forallb is_version_char version = true.
Proof.
  induction s as [|c s [version [Hs Hv]]].
  - now exists [].
  - cbn [skip_version]. destruct (is_version_char c) eqn:Hc.
    + exists (c :: version). cbn. rewrite Hc, Hv. split; [now f_equal | reflexivity].
    + now exists [].
Qed.

(** [cleanPath] removes a prefix and nothing else: either the path is
    kept, or the prefix is [solc_], a non-empty run of digits and dots
    and one slash, and the rest of the path follows it unchanged. *)
Theorem clean_path_removes_one_wrapper (filePath : jsstring) :
  exists prefix,
    filePath = prefix ++ clean_path filePath /\
    (prefix = [] \/
     exists version,
       version <> [] /\
       forallb is_version_char version = true /\
       prefix = lit "solc_" ++ version ++ [slash]).
Proof.
  unfold clean_path, match_solc_prefix.
  destruct (startsWith filePath (lit "solc_")) eqn:Hstart;
    [|exists []; split; [reflexivity | now left]].
  apply startsWith_app in Hstart. change (List.length (lit "solc_")) with 5%nat in Hstart.
  destruct (skip_version_split (skipn 5 filePath)) as [version [Hsplit Hv]].
  destruct (skipn 5 filePath) as [|c rest] eqn:Hrest;
    [exists []; split; [reflexivity | now left]|].
  destruct (skip_version (c :: rest)) as [|d after] eqn:Hskip;
    [exists []; split; [reflexivity | now left]|].
  destruct (is_version_char c && (d =? ch "/")) eqn:Hcd;
    [|exists []; split; [reflexivity | now left]].
  apply andb_true_iff in Hcd as [Hc Hd]. apply N.eqb_eq in Hd. subst d.
  exists (lit "solc_" ++ version ++ [slash]). split.
  - rewrite Hstart at 1. rewrite Hsplit. now rewrite <- !app_assoc.
  - right. exists version. repeat split; try assumption.
    intros ->. cbn [app] in Hsplit. injection Hsplit as Hc' _.
    rewrite Hc' in Hc. discriminate Hc.
Qed.

Lemma insert_by_index_perm x l : Permutation (insert_by_index x l) (x :: l).
Proof.
  induction l as [|y l IH]; cbn; [reflexivity|].
  destruct (fst x <? fst y); [reflexivity|].
  rewrite IH. apply perm_swap.
Qed.

(** [Object.entries] lists every property once. *)
Lemma own_entries_perm ps : Permutation (own_entries ps) ps.
Proof.
  unfold own_entries. induction ps as [|[k v] ps IH]; cbn [index_props named_props filter fst].
  - reflexivity.
  - destruct (array_index k) as [i|].
    + rewrite insert_by_index_perm. cbn [map snd app]. now constructor.
    + fold (named_props ps). rewrite <- Permutation_middle. now constructor.
Qed.

Lemma has_nullish_perm a b : Permutation a b -> has_nullish a = has_nullish b.
Proof.
  unfold has_nullish. induction 1; cbn; try congruence.
  now rewrite !orb_assoc, (orb_comm (is_nullish (snd y))).
Qed.

Lemma push_own_entries ps :
  has_nullish ps = false ->
  exists files,
    push_files (own_entries ps) [] = Normal files /\
    Permutation files (map file_of_entry ps).
Proof.
  intros H. exists (map file_of_entry (own_entries ps)). split.
  - apply push_files_all. now rewrite (has_nullish_perm _ _ (own_entries_perm ps)).
  - apply Permutation_map, own_entries_perm.
Qed.

(** When the sources object has no null entry, every one of its
    entries is decoded to exactly one file: none is lost and none is
    written twice, whatever order [Object.entries] lists them in.  This
    holds in the double-brace branch and, for the language Solidity, in
    the single-brace branch. *)
Theorem every_source_entry_decoded_once (raw : jsstring) (parsed : value) (ps : props) :
  get parsed (lit "sources") = Normal (VObj ps) ->
  has_nullish ps = false ->
  (startsWith raw (lit "{{") = true ->
   JSON_parse (slice raw 1 (-1)) = Normal parsed ->
   exists files,
     parseSourceCode raw = Normal files /\
     Permutation files (map file_of_entry ps)) /\
  (startsWith raw (lit "{") = true ->
   startsWith raw (lit "{{") = false ->
   JSON_parse raw = Normal parsed ->
   get parsed (lit "language") = Normal (VStr (lit "Solidity")) ->
   exists files,
     parseSourceCode raw = Normal files /\
     Permutation files (map file_of_entry ps)).
Proof.
  intros Hsrc Hnull.
  destruct (push_own_entries ps Hnull) as [files [Hpush Hperm]].
  split.
  - intros Hstart Hparse. exists files. split; [|exact Hperm].
    unfold parseSourceCode, parse_multi_file. rewrite Hstart, Hparse.
    cbn [cbind]. rewrite Hsrc. cbn [cbind or_else truthy Object_entries].
    now rewrite Hpush.
  - intros H1 H2 Hparse Hlang. exists files. split; [|exact Hperm].
    unfold parseSourceCode, parse_standard_json. rewrite H1, H2, Hparse.
    cbn [cbind]. rewrite Hlang. cbn [cbind].
    change (is_string (VStr (lit "Solidity")) (lit "Solidity")) with true. cbv iota.
    rewrite Hsrc. cbn [cbind truthy Object_entries]. now rewrite Hpush.
Qed.

Lemma every_source_entry_decoded_once_witness :
  exists files,
    parseSourceCode (json_lit "{{'sources':{'b.sol':{'content':'B'},'1':{'content':'one'}}}}")
    = Normal files /\
    Permutation files
      [{| path := lit "b.sol"; content := VStr (lit "B") |};
       {| path := lit "1"; content := VStr (lit "one") |}].
Proof.
  pose (raw := json_lit "{{'sources':{'b.sol':{'content':'B'},'1':{'content':'one'}}}}").
  pose (ps := [(lit "b.sol", VObj [(lit "content", VStr (lit "B"))]);
               (lit "1", VObj [(lit "content", VStr (lit "one"))])]).
  exact (proj1 (every_source_entry_decoded_once raw (VObj [(lit "sources", VObj ps)]) ps
                  eq_refl eq_refl) eq_refl eq_refl).
Defined.

(* ================================================================== *)
(** * What the client never does *)
(* ================================================================== *)

Lemma ro_weaken {A} n (p : prog A) :
  reads_only n p -> forall m, (n <= m)%nat -> reads_only m p.
Proof.
  induction 1 as [n a|n e|n k _ IH|n q k _ IH]; intros m Hle.
  - apply ro_ret.
  - apply ro_throw.
  - apply ro_key. intros r. now apply IH.
  - destruct m as [|m]; [lia|]. apply ro_http. intros r. apply IH. lia.
Qed.

Lemma ro_bind {A B} n m (p : prog A) (f : A -> prog B) :
  reads_only n p -> (forall a, reads_only m (f a)) -> reads_only (n + m) (bind p f).
Proof.
  intros Hp Hf. induction Hp as [n a|n e|n k _ IH|n q k _ IH]; cbn [bind].
  - apply (ro_weaken m); [apply Hf | lia].
  - apply ro_throw.
  - apply ro_key. exact IH.
  - apply (ro_http (n + m)). exact IH.
Qed.

Lemma ro_catch {A} n m (p : prog A) (h : exn -> prog A) :
  reads_only n p -> (forall e, reads_only m (h e)) -> reads_only (n + m) (catch p h).
Proof.
  intros Hp Hh. induction Hp as [n a|n e|n k _ IH|n q k _ IH]; cbn [catch].
  - apply ro_ret.
  - apply (ro_weaken m); [apply Hh | lia].
  - apply ro_key. exact IH.
  - apply (ro_http (n + m)). exact IH.
Qed.

Lemma ro_lift {A} n (c : completion A) : reads_only n (lift c).
Proof. destruct c; [apply ro_ret | apply ro_throw]. Qed.

Lemma ro_run {A} n (p : prog A) :
  reads_only n p ->
  forall w t,
    (http_calls (fst (run w t p)) <= n)%nat /\
    existsb touches_disk (fst (run w t p)) = false.
Proof.
  induction 1 as [n a|n e|n k _ IH|n q k _ IH]; intros w t; cbn [run].
  - split; [cbn; lia | reflexivity].
  - split; [cbn; lia | reflexivity].
  - destruct (IH (key_file w t) w (S t)) as [Hc Hd].
    destruct (run w (S t) (k (key_file w t))) as [tr r]. now split.
  - destruct (IH (http w t q) w (S t)) as [Hc Hd].
    destruct (run w (S t) (k (http w t q))) as [tr r].
    split; [cbn in *; lia | exact Hd].
Qed.

(** Pure steps of a program: a lifted completion, a conditional. *)
Ltac ro_pure :=
  repeat first
    [ apply ro_ret
    | apply ro_throw
    | apply ro_lift
    | progress cbn [lift bind]
    | match goal with
      | |- reads_only _ (bind (lift ?c) _) => destruct c
      | |- reads_only _ (bind (bind (lift ?c) _) _) => destruct c
      | |- reads_only _ (bind (if ?b then _ else _) _) => destruct b
      | |- reads_only _ (if ?b then _ else _) => destruct b
      end ].

Lemma getApiKey_reads_only c : reads_only 0 (getApiKey c).
Proof.
  unfold getApiKey. destruct (truthy (apiKey c)); [apply ro_ret|].
  apply ro_key. intros [key|cause]; [apply ro_ret | apply ro_throw].
Qed.

Lemma isContract_reads_only c chainId address :
  reads_only 1 (isContract c chainId address).
Proof.
  unfold isContract. apply (ro_bind 0 1); [apply getApiKey_reads_only|].
  intros key. apply (ro_catch 1 0); [|intros e; apply ro_ret].
  unfold axios_get. cbn [bind]. apply ro_http. intros r. ro_pure.
Qed.

Lemma throw_api_failure_reads_only data : reads_only 0 (throw_api_failure data).
Proof. unfold throw_api_failure. ro_pure. Qed.

Lemma rethrow_reads_only e : reads_only 0 (rethrow e).
Proof. destruct e as [| |[[s st]|]| |]; apply ro_throw. Qed.

Lemma fetchContractSource_reads_only c chainId address :
  reads_only 2 (fetchContractSource c chainId address).
Proof.
  unfold fetchContractSource. apply (ro_bind 0 2); [apply getApiKey_reads_only|].
  intros key. apply (ro_bind 0 2); [apply ro_lift|]. intros _.
  apply (ro_catch 2 0); [|apply rethrow_reads_only].
  unfold axios_get. cbn [bind]. apply ro_http. intros r.
  destruct r as [data|e]; cbn [lift bind]; [|apply ro_throw].
  destruct (get data (lit "status")) as [status|e]; cbn [lift bind]; [|apply ro_throw].
  destruct (negb (is_string status (lit "1")));
    [apply (ro_weaken 0); [apply throw_api_failure_reads_only | lia]|].
  destruct (get data (lit "result")) as [result|e]; cbn [lift bind]; [|apply ro_throw].
  destruct (truthy result); cbn [negb orb lift bind]; [|apply ro_throw].
  destruct (get result (lit "length")) as [len|e]; cbn [lift bind]; [|apply ro_throw].
  destruct (is_zero len); [apply ro_throw|].
  destruct (get result (lit "0")) as [contract|e]; cbn [lift bind]; [|apply ro_throw].
  destruct (get contract (lit "SourceCode")) as [sourceCode|e]; cbn [lift bind];
    [|apply ro_throw].
  destruct (negb (truthy sourceCode) || is_string sourceCode (lit "")); [|apply ro_lift].
  apply (ro_bind 1 0); [apply isContract_reads_only|].
  intros b. destruct (negb b); apply ro_throw.
Qed.

(** In every world [fetchContractSource] calls the transport at most
    twice and never creates a directory or writes a file: the only
    thing it does on the disk is to read the key file. *)
Theorem fetch_never_touches_disk
        (w : world) (c : client) (chainId : Z) (address : jsstring) :
  (http_calls (trace_of w (fetchContractSource c chainId address)) <= 2)%nat /\
  existsb touches_disk (trace_of w (fetchContractSource c chainId address)) = false.
Proof. apply ro_run, fetchContractSource_reads_only. Qed.

(* ================================================================== *)
(** * The other outcomes of fetchContractSource *)
(* ================================================================== *)

Lemma run_rethrow w t e : run w t (rethrow e) = ([], Abrupt (rethrown e)).
Proof. destruct e as [| |[[s st]|]| |]; reflexivity. Qed.

(** [isContract] sends exactly one eth_getCode request once the key is
    resolved and then never throws: it answers false exactly when the
    response carries the result '0x', and true in every other case.  The
    only error that leaves it is that of [getApiKey], and then no request
    is sent. *)
Theorem isContract_only_fails_on_key
        (w : world) (t : nat) (c : client) (chainId : Z) (address : jsstring) :
  (forall tr1 key,
     run w t (getApiKey c) = (tr1, Normal key) ->
     exists b,
       run w t (isContract c chainId address)
       = (tr1 ++ [EHttpGet (code_request chainId address key)], Normal b) /\
       (b = false <->
        reports_no_code (http w (t + List.length tr1) (code_request chainId address key))
        = true)) /\
  (forall tr1 e,
     run w t (getApiKey c) = (tr1, Abrupt e) ->
     run w t (isContract c chainId address) = (tr1, Abrupt e)).
Proof.
  split.
  - intros tr1 key Hkey. eexists. split; [now apply isContract_run|].
    now destruct (reports_no_code _).
  - intros tr1 e Hkey. unfold isContract. now apply run_bind_abrupt.
Qed.

Lemma isContract_only_fails_on_key_witness :
  let w := make_world (FsFail (lit "ENOENT"))
             (fun _ _ => JSON_parse (json_lit "{'jsonrpc':'2.0','id':1,'result':'0x6080'}")) in
  exists b,
    run w 0 (isContract {| apiKey := VStr (lit "KEY") |} 1 (lit "0xabc"))
    = ([EHttpGet (code_request 1 (lit "0xabc") (VStr (lit "KEY")))], Normal b) /\
    (b = false <->
     reports_no_code (http w 0 (code_request 1 (lit "0xabc") (VStr (lit "KEY")))) = true).
Proof.
  cbv zeta.
  exact (proj1 (isContract_only_fails_on_key
                  (make_world (FsFail (lit "ENOENT"))
                     (fun _ _ => JSON_parse (json_lit "{'jsonrpc':'2.0','id':1,'result':'0x6080'}")))
                  0 {| apiKey := VStr (lit "KEY") |} 1%Z (lit "0xabc"))
               [] (VStr (lit "KEY")) eq_refl).
Defined.

(** A response with the success status whose result is falsy or has
    length 0 gives the no-contract error after the one request; the
    probe is not sent. *)
Theorem empty_result_is_no_contract
        (w : world) (c : client) (chainId : Z) (address name : jsstring)
        (tr0 : list event) (key data status result : value) :
  run w 0 (getApiKey c) = (tr0, Normal key) ->
  chain_config CHAIN_CONFIGS chainId = Some name ->
  http w (List.length tr0) (source_request chainId address key) = Normal data ->
  get data (lit "status") = Normal status ->
  is_string status (lit "1") = true ->
  get data (lit "result") = Normal result ->
  (truthy result = false \/
   exists len, get result (lit "length") = Normal len /\ is_zero len = true) ->
  run w 0 (fetchContractSource c chainId address)
  = (tr0 ++ [EHttpGet (source_request chainId address key)],
     Abrupt (Error No_contract_found)).
Proof.
  intros Hkey Hchain Hhttp Hs H1 Hr Hempty.
  unfold fetchContractSource, validateChainId. rewrite Hchain.
  eapply run_bind_normal; [eassumption|]. cbn [lift bind Nat.add].
  rewrite run_catch, run_bind, run_axios_get, Hhttp.
  rewrite Hs. cbn [lift bind]. rewrite H1. cbn [negb].
  rewrite Hr. cbn [lift bind].
  destruct (truthy result) eqn:Ht.
  - destruct Hempty as [Hf | [len [Hl Hz]]]; [discriminate|].
    rewrite Hl. cbn [lift bind negb orb]. rewrite Hz. reflexivity.
  - reflexivity.
Qed.

Lemma empty_result_is_no_contract_witness :
  let w := make_world (FsFail (lit "ENOENT"))
             (fun _ _ => JSON_parse (json_lit "{'status':'1','message':'OK','result':[]}")) in
  run w 0 (fetchContractSource {| apiKey := VStr (lit "KEY") |} 1 (lit "0xabc"))
  = ([EHttpGet (source_request 1 (lit "0xabc") (VStr (lit "KEY")))],
     Abrupt (Error No_contract_found)).
Proof.
  cbv zeta.
  pose (data := VObj [(lit "status", VStr (lit "1")); (lit "message", VStr (lit "OK"));
                      (lit "result", VArr [])]).
  exact (empty_result_is_no_contract
           (make_world (FsFail (lit "ENOENT"))
              (fun _ _ => JSON_parse (json_lit "{'status':'1','message':'OK','result':[]}")))
           {| apiKey := VStr (lit "KEY") |} 1 (lit "0xabc") (lit "Ethereum Mainnet")
           [] (VStr (lit "KEY")) data (VStr (lit "1")) (VArr [])
           eq_refl eq_refl eq_refl eq_refl eq_refl eq_refl
           (or_intror (ex_intro _ (num_of_N 0) (conj eq_refl eq_refl)))).
Defined.

(** A rejected getsourcecode request ends the run after that one
    request.  A rejection that carries a response becomes the HTTP error
    with its status and status text; any other rejection is thrown on as
    it is. *)
Theorem rejected_request_outcome
        (w : world) (c : client) (chainId : Z) (address name : jsstring)
        (tr0 : list event) (key : value) (e : exn) :
  run w 0 (getApiKey c) = (tr0, Normal key) ->
  chain_config CHAIN_CONFIGS chainId = Some name ->
  http w (List.length tr0) (source_request chainId address key) = Abrupt e ->
  run w 0 (fetchContractSource c chainId address)
  = (tr0 ++ [EHttpGet (source_request chainId address key)],
     Abrupt (match e with
             | AxiosError (Some (status, statusText)) =>
                 Error (HTTP_Error status statusText)
             | _ => e
             end)).
Proof.
  intros Hkey Hchain Hhttp.
  unfold fetchContractSource, validateChainId. rewrite Hchain.
  eapply run_bind_normal; [eassumption|]. cbn [lift bind Nat.add].
  rewrite run_catch, run_bind, run_axios_get, Hhttp, run_rethrow.
  reflexivity.
Qed.

Lemma rejected_request_outcome_witness :
  let w := make_world (FsFail (lit "ENOENT"))
             (fun _ _ => Abrupt (AxiosError (Some (num_of_N 503, VStr (lit "Service Unavailable"))))) in
  run w 0 (fetchContractSource {| apiKey := VStr (lit "KEY") |} 1 (lit "0xabc"))
  = ([EHttpGet (source_request 1 (lit "0xabc") (VStr (lit "KEY")))],
     Abrupt (Error (HTTP_Error (num_of_N 503) (VStr (lit "Service Unavailable"))))).
Proof.
  cbv zeta.
  exact (rejected_request_outcome
           (make_world (FsFail (lit "ENOENT"))
              (fun _ _ => Abrupt (AxiosError (Some (num_of_N 503, VStr (lit "Service Unavailable"))))))
           {| apiKey := VStr (lit "KEY") |} 1 (lit "0xabc") (lit "Ethereum Mainnet")
           [] (VStr (lit "KEY")) _ eq_refl eq_refl eq_refl).
Defined.

Lemma call_includes_no_method v needle :
  has_includes v = false -> call_includes v needle = Abrupt TypeError.
Proof. destruct v; cbn; congruence. Qed.

(** Responses the client does not classify: the [TypeError] of the host
    leaves [fetchContractSource] as it is.  This happens when the
    response body is null, when the first result entry is null, and when
    a failure response carries as its message a value that is neither a
    string nor an array. *)
Theorem unreadable_response_throws_TypeError
        (w : world) (c : client) (chainId : Z) (address name : jsstring)
        (tr0 : list event) (key data : value) :
  run w 0 (getApiKey c) = (tr0, Normal key) ->
  chain_config CHAIN_CONFIGS chainId = Some name ->
  http w (List.length tr0) (source_request chainId address key) = Normal data ->
  (is_nullish data = true ->
   outcome_of w (fetchContractSource c chainId address) = Abrupt TypeError) /\
  (forall entry,
     success_entry data entry ->
     is_nullish entry = true ->
     outcome_of w (fetchContractSource c chainId address) = Abrupt TypeError) /\
  (forall status text,
     get data (lit "status") = Normal status ->
     is_string status (lit "1") = false ->
     error_text data = Normal text ->
     has_includes text = false ->
     outcome_of w (fetchContractSource c chainId address) = Abrupt TypeError).
Proof.
  intros Hkey Hchain Hhttp.
  unfold outcome_of, fetchContractSource, validateChainId.
  rewrite Hchain, run_bind, Hkey. cbn [lift bind Nat.add].
  rewrite run_catch, run_bind, run_axios_get, Hhttp.
  repeat split.
  - intros Hnull. rewrite (get_nullish _ _ Hnull). reflexivity.
  - intros entry (status & result & len & Hs & H1 & Hr & Ht & Hl & Hz & H0) Hnull.
    rewrite Hs. cbn [lift bind]. rewrite H1. cbn [negb].
    rewrite Hr. cbn [lift bind]. rewrite Ht, Hl. cbn [lift bind negb orb]. rewrite Hz.
    rewrite H0. cbn [lift bind]. rewrite (get_nullish _ _ Hnull). reflexivity.
  - intros status text Hs H1 Htext Hno.
    rewrite Hs. cbn [lift bind]. rewrite H1. cbn [negb].
    unfold throw_api_failure. rewrite Htext. cbn [lift bind].
    rewrite (call_includes_no_method _ _ Hno). reflexivity.
Qed.

Lemma unreadable_response_throws_TypeError_witness :
  let w := make_world (FsFail (lit "ENOENT"))
             (fun _ _ => JSON_parse (json_lit "{'status':'0','message':{'code':429}}")) in
  outcome_of w (fetchContractSource {| apiKey := VStr (lit "KEY") |} 1 (lit "0xabc"))
  = Abrupt TypeError.
Proof.
  cbv zeta.
  pose (text := VObj [(lit "code", VNum (Dec false 429 0))]).
  pose (data := VObj [(lit "status", VStr (lit "0")); (lit "message", text)]).
  destruct (unreadable_response_throws_TypeError
              (make_world (FsFail (lit "ENOENT"))
                 (fun _ _ => JSON_parse (json_lit "{'status':'0','message':{'code':429}}")))
              {| apiKey := VStr (lit "KEY") |} 1 (lit "0xabc") (lit "Ethereum Mainnet")
              [] (VStr (lit "KEY")) data eq_refl eq_refl eq_refl) as [_ [_ H]].
  exact (H (VStr (lit "0")) text eq_refl eq_refl eq_refl eq_refl).
Defined.

Lemma throw_api_failure_throws w t data :
  exists e, run w t (throw_api_failure data) = ([], Abrupt e).
Proof.
  unfold throw_api_failure.
  destruct (error_text data) as [text|e]; cbn [lift bind]; [|eexists; reflexivity].
  destruct (call_includes text (lit "Invalid API Key")) as [[|]|e]; cbn [lift bind];
    try (eexists; reflexivity).
  destruct (call_includes text (lit "invalid API key")) as [[|]|e]; cbn [lift bind];
    try (eexists; reflexivity).
  destruct (call_includes text (lit "Max rate limit reached")) as [[|]|e]; cbn [lift bind];
    eexists; reflexivity.
Qed.

(** The outer [catch] turns no error into a result. *)
Lemma run_catch_rethrow_normal {w t} {p : prog value} {tr a} :
  run w t (catch p rethrow) = (tr, Normal a) -> run w t p = (tr, Normal a).
Proof.
  rewrite run_catch. destruct (run w t p) as [tr' [a'|e]]; [trivial|].
  rewrite run_rethrow. discriminate.
Qed.

(** Adding the proxy information changes no other field of the record. *)
Lemma add_proxy_info_keeps entry contract k :
  add_proxy_info entry = Normal contract ->
  str_eqb k (lit "proxyInfo") = false ->
  get contract k = get entry k.
Proof.
  intros Hadd Hk. unfold add_proxy_info in Hadd.
  destruct (get entry (lit "Proxy")) as [proxy|e]; cbn [cbind] in Hadd; [|discriminate].
  destruct (is_string proxy (lit "1")); [|now injection Hadd as <-].
  destruct (get entry (lit "Implementation")) as [impl|e]; cbn [cbind] in Hadd;
    [|discriminate].
  destruct entry; cbn [put] in Hadd; try discriminate.
  injection Hadd as <-. cbn [get]. now rewrite lookup_set_prop_other.
Qed.

(** Whenever [fetchContractSource] returns a record, exactly one request
    was sent and it was answered with the success status; the record is
    the first result entry, its source code is truthy, and it differs
    from the entry in no field other than [proxyInfo]. *)
Theorem fetched_record_has_source
        (w : world) (c : client) (chainId : Z) (address : jsstring) (contract : value) :
  outcome_of w (fetchContractSource c chainId address) = Normal contract ->
  exists entry sourceCode,
    answered_with w c chainId address entry /\
    get contract (lit "SourceCode") = Normal sourceCode /\
    truthy sourceCode = true /\
    (forall k, str_eqb k (lit "proxyInfo") = false -> get contract k = get entry k) /\
    http_calls (trace_of w (fetchContractSource c chainId address)) = 1%nat.
Proof.
  unfold outcome_of, trace_of.
  destruct (run w 0 (fetchContractSource c chainId address)) as [tr r] eqn:Hrun.
  cbn [fst snd]. intros ->.
  unfold fetchContractSource, validateChainId in Hrun. rewrite run_bind in Hrun.
  destruct (getApiKey_run w 0 c) as [tr0 [rkey [Hkey Hcalls]]]. rewrite Hkey in Hrun.
  destruct rkey as [key|e]; [|discriminate].
  destruct (chain_config CHAIN_CONFIGS chainId) as [name|] eqn:Hchain;
    cbn [lift bind Nat.add] in Hrun; [|discriminate].
  destruct (run w (List.length tr0) _) as [tr' r'] eqn:Hbody in Hrun.
  injection Hrun as <- ->.
  apply run_catch_rethrow_normal in Hbody.
  rewrite run_bind, run_axios_get in Hbody.
  destruct (http w (List.length tr0) (source_request chainId address key))
    as [data|e] eqn:Hhttp; [|discriminate].
  destruct (get data (lit "status")) as [status|e] eqn:Hs; cbn [lift bind] in Hbody;
    [|discriminate].
  destruct (is_string status (lit "1")) eqn:H1; cbn [negb] in Hbody.
  2:{ destruct (throw_api_failure_throws w (List.length tr0 + 1) data) as [e He].
      cbn [List.length] in Hbody. rewrite He in Hbody. discriminate. }
  destruct (get data (lit "result")) as [result|e] eqn:Hr; cbn [lift bind] in Hbody;
    [|discriminate].
  destruct (truthy result) eqn:Ht; cbn [negb orb lift bind] in Hbody; [|discriminate].
  destruct (get result (lit "length")) as [len|e] eqn:Hl; cbn [lift bind] in Hbody;
    [|discriminate].
  destruct (is_zero len) eqn:Hz; [discriminate|].
  destruct (get result (lit "0")) as [entry|e] eqn:H0; cbn [lift bind] in Hbody;
    [|discriminate].
  destruct (get entry (lit "SourceCode")) as [sourceCode|e] eqn:Hsrc;
    cbn [lift bind] in Hbody; [|discriminate].
  destruct (truthy sourceCode) eqn:Hfull; cbn [negb orb] in Hbody.
  2:{ rewrite run_bind in Hbody.
      destruct (run w _ (isContract c chainId address)) as [trc [b|e]];
        [destruct (negb b)|]; discriminate. }
  rewrite (truthy_not_empty _ Hfull) in Hbody.
  destruct (add_proxy_info entry) as [contract'|e] eqn:Hadd; [|discriminate].
  cbn [lift run app] in Hbody. injection Hbody as <- <-.
  exists entry, sourceCode. repeat split.
  - exists tr0, key, name, data. repeat split; try assumption.
    exists status, result, len. now repeat split.
  - now rewrite (add_proxy_info_keeps _ _ _ Hadd) by reflexivity.
  - exact Hfull.
  - intros k Hk. now apply (add_proxy_info_keeps _ _ _ Hadd).
  - unfold http_calls in *. rewrite filter_app, length_app, Hcalls. reflexivity.
Qed.

Lemma fetched_record_has_source_witness :
  let w := make_world (FsFail (lit "ENOENT"))
             (fun _ _ => JSON_parse (json_lit "{'status':'1','message':'OK','result':[{'SourceCode':'contract A {}','Proxy':'0'}]}")) in
  exists entry sourceCode,
    answered_with w {| apiKey := VStr (lit "KEY") |} 1 (lit "0xabc") entry /\
    get entry (lit "SourceCode") = Normal sourceCode /\
    truthy sourceCode = true.
Proof.
  cbv zeta.
  destruct (fetched_record_has_source
              (make_world (FsFail (lit "ENOENT"))
                 (fun _ _ => JSON_parse (json_lit "{'status':'1','message':'OK','result':[{'SourceCode':'contract A {}','Proxy':'0'}]}")))
              {| apiKey := VStr (lit "KEY") |} 1 (lit "0xabc")
              (VObj [(lit "SourceCode", VStr (lit "contract A {}")); (lit "Proxy", VStr (lit "0"))])
              eq_refl) as (entry & sourceCode & Hans & Hsrc & Hfull & Hkeep & _).
  exists entry, sourceCode. repeat split; try assumption.
  now rewrite <- (Hkeep (lit "SourceCode") eq_refl).
Defined.

(* ================================================================== *)
(** * The API key and the chain registry *)
(* ================================================================== *)

Lemma trim_start_spaces a l :
  forallb is_trim_space a = true -> trim_start (a ++ l) = trim_start l.
Proof.
  induction a as [|c a IH]; cbn [forallb app]; intros H; [reflexivity|].
  apply andb_true_iff in H as [Hc Ha]. cbn [trim_start]. rewrite Hc. now apply IH.
Qed.

Lemma forallb_rev {A} (f : A -> bool) l : forallb f (rev l) = forallb f l.
Proof.
  induction l as [|x l IH]; [reflexivity|].
  cbn [rev forallb]. rewrite forallb_app, IH. cbn. now rewrite andb_true_r, andb_comm.
Qed.

(** [trim] removes the white space around a text that neither begins nor
    ends with white space. *)
Lemma trim_surrounded before core after :
  forallb is_trim_space before = true ->
  forallb is_trim_space after = true ->
  core = [] \/ (is_trim_space (hd 0 core) = false /\ is_trim_space (last core 0) = false) ->
  trim (before ++ core ++ after) = core.
Proof.
  intros Hb Ha Hcore. unfold trim. rewrite trim_start_spaces by assumption.
  destruct core as [|x core'].
  - cbn [app]. rewrite <- (app_nil_r after), trim_start_spaces by assumption.
    reflexivity.
  - destruct Hcore as [Hnil | [Hhd Hlast]]; [discriminate|]. cbn [hd] in Hhd.
    cbn [app trim_start]. rewrite Hhd.
    change (x :: core' ++ after) with ((x :: core') ++ after).
    rewrite rev_app_distr, trim_start_spaces by now rewrite forallb_rev.
    rewrite (app_removelast_last 0 (l := x :: core')) at 1 by discriminate.
    rewrite rev_app_distr. cbn [rev app trim_start]. rewrite Hlast.
    change (last (x :: core') 0 :: rev (removelast (x :: core')))
      with (rev [last (x :: core') 0] ++ rev (removelast (x :: core'))).
    rewrite <- rev_app_distr, rev_involutive.
    now rewrite <- app_removelast_last by discriminate.
Qed.

(** Without an explicit key (undefined, or the empty string) the key is
    read from the key file, and the getsourcecode request carries the
    content of the file without the white space around it.  A file that
    holds white space only gives the empty key, and the request is sent
    all the same. *)
Theorem key_file_content_is_trimmed
        (w : world) (c : client) (chainId : Z) (address name : jsstring)
        (before key after : jsstring) :
  truthy (apiKey c) = false ->
  chain_config CHAIN_CONFIGS chainId = Some name ->
  key_file w 0 = FsOk (before ++ key ++ after) ->
  forallb is_trim_space before = true ->
  forallb is_trim_space after = true ->
  key = [] \/ (is_trim_space (hd 0 key) = false /\ is_trim_space (last key 0) = false) ->
  exists tr,
    trace_of w (fetchContractSource c chainId address)
    = EReadKeyFile :: EHttpGet (source_request chainId address (VStr key)) :: tr.
Proof.
  intros Hfalsy Hchain Hfile Hb Ha Hkey.
  unfold trace_of, fetchContractSource, validateChainId, getApiKey.
  rewrite Hfalsy, Hchain. cbn [bind run]. rewrite Hfile.
  rewrite trim_surrounded by assumption.
  cbn [lift bind catch axios_get run].
  destruct (run w 2 _) as [tr r]. now exists tr.
Qed.

Lemma key_file_content_is_trimmed_witness :
  let w := make_world (FsOk (lit "KEY" ++ [10])) (fun _ _ => Abrupt (AxiosError None)) in
  exists tr,
    trace_of w (fetchContractSource {| apiKey := VUndefined |} 1 (lit "0xabc"))
    = EReadKeyFile :: EHttpGet (source_request 1 (lit "0xabc") (VStr (lit "KEY"))) :: tr.
Proof.
  cbv zeta.
  apply (key_file_content_is_trimmed
           (make_world (FsOk (lit "KEY" ++ [10])) (fun _ _ => Abrupt (AxiosError None)))
           {| apiKey := VUndefined |} 1 (lit "0xabc") (lit "Ethereum Mainnet")
           [] (lit "KEY") [10]); try reflexivity.
  right. split; reflexivity.
Defined.

Lemma chain_config_In table id name :
  chain_config table id = Some name -> In (id, name) table.
Proof.
  induction table as [|[id' name'] table IH]; cbn; [discriminate|].
  destruct (id' =? id)%Z eqn:E.
  - intros H. injection H as ->. apply Z.eqb_eq in E. subst. now left.
  - intros H. right. now apply IH.
Qed.

(** The chains that [validateChainId] accepts are exactly the chains
    that the [chains] command lists, each under the same name. *)
Theorem listed_chains_are_the_supported_ones (chainId : Z) (name : jsstring) :
  validateChainId chainId = Normal name <-> In (chainId, name) listed_chains.
Proof.
  unfold validateChainId. split.
  - destruct (chain_config CHAIN_CONFIGS chainId) as [config|] eqn:E; [|discriminate].
    intros H. injection H as ->. now apply chain_config_In in E.
  - intros H. cbn in H.
    repeat (destruct H as [H|H]; [injection H as <- <-; reflexivity|]).
    contradiction.
Qed.

(* ================================================================== *)
(** * More on the writer *)
(* ================================================================== *)





(** A decoded content that is neither a string nor an array stops the
    run, also on a disk that accepts every operation: the files before
    it are written, the directory of the file is created, and then
    [fs.writeFile] throws a TypeError; neither the later files nor
    metadata.json are written. *)
Theorem refused_content_stops_the_writer
        (parseInt : value -> value) (w : world)
        (contract : value) (localPath src : jsstring)
        (before after : list file) (f : file) :
  disk_accepts w ->
  get contract (lit "SourceCode") = Normal (VStr src) ->
  parseSourceCode src = Normal (before ++ f :: after) ->
  text_files before = true ->
  refused_data (content f) = true ->
  run w 0 (saveContractFiles parseInt contract localPath)
  = (EMkdir localPath
       :: flat_map (file_events localPath) before
       ++ [EMkdir (path_dirname (path_join localPath (path f)))],
     Abrupt TypeError).
Proof.
  intros Hdisk Hsrc Hfiles Htext Hrefused.
  unfold saveContractFiles.
  rewrite Hsrc. cbn [lift bind call_parseSourceCode]. rewrite Hfiles. cbn [lift bind].
  rewrite run_bind, (run_fs_mkdir w Hdisk), run_bind.
  assert (Hloop : forall t savedFiles,
             run w t (write_files localPath (before ++ f :: after) savedFiles)
             = (flat_map (file_events localPath) before
                ++ [EMkdir (path_dirname (path_join localPath (path f)))],
                Abrupt TypeError)).
  { clear Hfiles. induction before as [|g before IH]; intros t savedFiles.
    - cbn [app write_files flat_map]. rewrite run_bind, (run_fs_mkdir w Hdisk), run_bind.
      destruct (content f); try discriminate; reflexivity.
    - cbn in Htext. apply andb_true_iff in Htext as [Hg Htext].
      cbn [app write_files flat_map]. unfold file_events at 1.
      destruct (content g) as [| | | |text| |]; try discriminate.
      rewrite run_bind, (run_fs_mkdir w Hdisk), run_bind,
        (run_fs_writeFile_text w Hdisk), IH by assumption.
      cbn [app]. reflexivity. }
  rewrite Hloop. reflexivity.
Qed.

Lemma refused_content_stops_the_writer_witness :
  let w := make_world (FsFail (lit "ENOENT")) (fun _ _ => Abrupt (AxiosError None)) in
  let src := json_lit "{'language':'Solidity','sources':{'A.sol':{'content':5}}}" in
  run w 0 (saveContractFiles (fun _ => VNum NaN) (VObj [(lit "SourceCode", VStr src)])
             (lit "/out"))
  = ([EMkdir (lit "/out"); EMkdir (lit "/out")], Abrupt TypeError).
Proof.
  cbv zeta.
  pose (w := make_world (FsFail (lit "ENOENT")) (fun _ _ => Abrupt (AxiosError None))).
  pose (src := json_lit "{'language':'Solidity','sources':{'A.sol':{'content':5}}}").
  assert (Hdisk : disk_accepts w) by (split; reflexivity).
  exact (refused_content_stops_the_writer (fun _ => VNum NaN) w
           (VObj [(lit "SourceCode", VStr src)]) (lit "/out") src []
           [] {| path := lit "A.sol"; content := VNum (Dec false 5 0) |}
           Hdisk eq_refl eq_refl eq_refl eq_refl).
Defined.

(** When the [SourceCode] of the record is not a string, or the record
    is null or undefined, [saveContractFiles] throws a [TypeError] before
    it does anything on the disk. *)
Theorem save_needs_a_string_source
        (parseInt : value -> value) (w : world) (contract : value) (localPath : jsstring) :
  (is_nullish contract = true \/
   exists sourceCode,
     get contract (lit "SourceCode") = Normal sourceCode /\
     forall s, sourceCode <> VStr s) ->
  run w 0 (saveContractFiles parseInt contract localPath) = ([], Abrupt TypeError).
Proof.
  intros [Hnull | [sourceCode [Hsrc Hnot]]]; unfold saveContractFiles.
  - now rewrite (get_nullish _ _ Hnull).
  - rewrite Hsrc. cbn [lift bind].
    destruct sourceCode; try reflexivity. now destruct (Hnot s).
Qed.

Lemma save_needs_a_string_source_witness :
  run (make_world (FsFail (lit "ENOENT")) (fun _ _ => Abrupt (AxiosError None))) 0
      (saveContractFiles (fun _ => VNum NaN) (VObj [(lit "ContractName", VStr (lit "A"))])
                         (lit "/out"))
  = ([], Abrupt TypeError).
Proof.
  apply save_needs_a_string_source. right. exists VUndefined.
  split; [reflexivity | discriminate].
Defined.





(* ================================================================== *)
(** * The command line *)
(* ================================================================== *)

Lemma is_hex_not_x c : is_hex c = true -> (c =? ch "x") = false /\ (c =? ch "X") = false.
Proof.
  intros H. split.
  - destruct (c =? ch "x") eqn:E; [|reflexivity].
    apply N.eqb_eq in E. subst c. discriminate H.
  - destruct (c =? ch "X") eqn:E; [|reflexivity].
    apply N.eqb_eq in E. subst c. discriminate H.
Qed.

Lemma startsWith_literal s p : startsWith (p ++ s) p = true.
Proof.
  induction p as [|y p IH]; [reflexivity|]. cbn. now rewrite N.eqb_refl, IH.
Qed.

Lemma matches_address_inv address :
  matches_address address = true ->
  exists x digits,
    address = ch "0" :: x :: digits /\
    (x = ch "x" \/ x = ch "X") /\
    List.length digits = 40%nat /\
    forallb is_hex digits = true.
Proof.
  destruct address as [|zero [|x digits]]; try discriminate. cbn [matches_address].
  intros H. apply andb_true_iff in H as [H Hhex]. apply andb_true_iff in H as [H Hlen].
  apply andb_true_iff in H as [Hz Hx]. apply N.eqb_eq in Hz. apply Nat.eqb_eq in Hlen.
  exists x, digits. repeat split; try assumption; [now subst|].
  apply orb_true_iff in Hx as [Hx | Hx]; apply N.eqb_eq in Hx; auto.
Qed.

(** The fetch command accepts an address exactly when it is 40
    hexadecimal digits, bare or after [0x] or [0X].  A bare address is
    handed on with [0x] in front, a prefixed one as it was typed, so the
    address handed on always has 42 code units. *)
Theorem address_accepted_iff (address address' : jsstring) :
  prepare_address address = Some address' <->
  exists digits,
    List.length digits = 40%nat /\
    forallb is_hex digits = true /\
    ((address = digits /\ address' = lit "0x" ++ digits) \/
     (address = lit "0x" ++ digits /\ address' = address) \/
     (address = lit "0X" ++ digits /\ address' = address)).
Proof.
  unfold prepare_address. cbv zeta. split.
  - destruct (negb (startsWith address (lit "0x")) && negb (startsWith address (lit "0X")));
      (destruct (matches_address _) eqn:Hm; [|discriminate]);
      intros E; injection E as <-;
      destruct (matches_address_inv _ Hm) as (x & digits & Hshape & Hx & Hlen & Hhex);
      exists digits; repeat split; try assumption.
    + left. cbn [lit map list_ascii_of_string app] in Hshape.
      inversion Hshape. now split.
    + right. rewrite Hshape. destruct Hx as [-> | ->]; [left | right]; now split.
  - intros (digits & Hlen & Hhex & [[-> ->] | [[-> ->] | [-> ->]]]).
    + assert (Hx : startsWith digits (lit "0x") = false /\
                   startsWith digits (lit "0X") = false).
      { destruct digits as [|d0 [|d1 digits]]; try discriminate Hlen.
        cbn [forallb] in Hhex. apply andb_true_iff in Hhex as [_ Hhex].
        apply andb_true_iff in Hhex as [H1 _].
        destruct (is_hex_not_x _ H1) as [Hlow Hup].
        cbn [startsWith lit map list_ascii_of_string].
        change (ch "x") with 120 in Hlow. change (ch "X") with 88 in Hup.
        change (ch "x") with 120. change (ch "X") with 88.
        now rewrite Hlow, Hup, !andb_false_r. }
      destruct Hx as [-> ->]. cbn [negb andb].
      cbn [lit map list_ascii_of_string app matches_address].
      rewrite Hlen, Hhex. reflexivity.
    + rewrite startsWith_literal. cbn [negb andb].
      cbn [lit map list_ascii_of_string app matches_address].
      rewrite Hlen, Hhex. reflexivity.
    + rewrite startsWith_literal.
      replace (negb (startsWith (lit "0X" ++ digits) (lit "0x"))) with true by reflexivity.
      cbn [negb andb].
      cbn [lit map list_ascii_of_string app matches_address].
      rewrite Hlen, Hhex. reflexivity.
Qed.

Lemma includes_occurs s needle :
  includes s needle = true -> exists before after, s = before ++ needle ++ after.
Proof.
  induction s as [|c s IH]; cbn [includes]; intros H.
  - rewrite orb_false_r in H. apply startsWith_app in H.
    exists [], (skipn (List.length needle) []). exact H.
  - apply orb_true_iff in H as [H|H].
    + apply startsWith_app in H. now exists [], (skipn (List.length needle) (c :: s)).
    + destruct (IH H) as [before [after ->]]. now exists (c :: before), after.
Qed.

(** A text that lacks one of the code units of the needle does not
    include the needle. *)
Lemma includes_needs c s needle :
  In c needle -> ~ In c s -> includes s needle = false.
Proof.
  intros Hc Hs. destruct (includes s needle) eqn:E; [|reflexivity].
  destruct (includes_occurs _ _ E) as [before [after ->]].
  exfalso. apply Hs. apply in_or_app. right. apply in_or_app. now left.
Qed.

Lemma startsWith_in_prefix p : forall a b,
  startsWith a p = true -> startsWith (a ++ b) p = true.
Proof.
  induction p as [|y p IH]; intros a b H; [reflexivity|].
  destruct a as [|x a]; [discriminate|]. cbn [startsWith app] in *.
  apply andb_true_iff in H as [-> H]. now rewrite (IH _ _ H).
Qed.

Lemma includes_in_prefix a b needle :
  includes a needle = true -> includes (a ++ b) needle = true.
Proof.
  induction a as [|c a IH]; cbn [includes]; intros H.
  - rewrite orb_false_r in H. destruct needle; [|discriminate].
    destruct b; reflexivity.
  - apply orb_true_iff in H as [H|H].
    + change ((c :: a) ++ b) with (c :: (a ++ b)). cbn [includes].
      change (c :: (a ++ b)) with ((c :: a) ++ b).
      now rewrite (startsWith_in_prefix _ _ b H).
    + cbn [app includes]. rewrite (IH H). apply orb_true_r.
Qed.

Lemma uint_digits_are_digits u c : In c (uint_digits u) -> is_digit c = true.
Proof.
  induction u; cbn [uint_digits In]; intros H; try contradiction;
    (destruct H as [<-|H]; [reflexivity | now apply IHu]).
Qed.

Lemma integer_to_string_chars n c :
  In c (integer_to_string n) -> c = ch "-" \/ is_digit c = true.
Proof.
  unfold integer_to_string, index_to_string. intros H. apply in_app_or in H as [H|H].
  - destruct (n <? 0)%Z; [|contradiction]. destruct H as [<-|[]]. now left.
  - right. now apply uint_digits_are_digits in H.
Qed.

Lemma prepared_address_chars address address' c :
  prepare_address address = Some address' ->
  In c address' -> c = ch "0" \/ c = ch "x" \/ c = ch "X" \/ is_hex c = true.
Proof.
  unfold prepare_address. cbv zeta.
  set (a := if negb (startsWith address (lit "0x")) && negb (startsWith address (lit "0X"))
            then lit "0x" ++ address else address).
  destruct (matches_address a) eqn:Hm; [|discriminate].
  intros E Hc. assert (Ea : address' = a) by congruence. subst address'.
  destruct (matches_address_inv _ Hm) as (x & digits & Hshape & Hx & _ & Hhex).
  rewrite Hshape in Hc. destruct Hc as [<-|[<-|Hc]].
  - now left.
  - destruct Hx as [-> | ->]; auto.
  - do 3 right. exact (proj1 (forallb_forall _ _) Hhex _ Hc).
Qed.

(** The code unit does not occur in a text that is written out. *)
Ltac not_in_literal H :=
  cbn in H; repeat (destruct H as [H|H]; [discriminate H|]); contradiction.

Lemma not_in_chain_text c chainId :
  is_digit c = false -> c <> ch "-" ->
  ~ In c (lit "Unsupported chain ID: ") ->
  ~ In c (lit ". Use 'fetch-contract chains' to see supported chains.") ->
  ~ In c (lit "Unsupported chain ID: " ++ integer_to_string chainId
          ++ lit ". Use 'fetch-contract chains' to see supported chains.").
Proof.
  intros Hd Hm Ha Hb H. apply in_app_or in H as [H|H]; [now apply Ha|].
  apply in_app_or in H as [H|H]; [|now apply Hb].
  destruct (integer_to_string_chars _ _ H) as [E|E]; congruence.
Qed.

Lemma not_in_address_text c prefix address address' :
  prepare_address address = Some address' ->
  is_hex c = false -> c <> ch "0" -> c <> ch "x" -> c <> ch "X" ->
  ~ In c prefix ->
  ~ In c (prefix ++ address').
Proof.
  intros Hp Hh H0 Hx HX Hpre H. apply in_app_or in H as [H|H]; [now apply Hpre|].
  destruct (prepared_address_chars _ _ _ Hp H) as [E|[E|[E|E]]]; congruence.
Qed.

Lemma some_eq {A} (a b : A) : Some a = Some b -> b = a.
Proof. congruence. Qed.

(** The tip that the fetch command prints under the error message.  The
    two errors about the API key get the tip about the key; the
    unsupported-chain error gets the tip about the chains for every
    chain id; for an address that the command accepted, the EOA error
    gets the tip about the wallet and the unverified-contract error the
    tip about the unpublished source; the rate-limit and the no-contract
    errors get no tip. *)
Theorem each_failure_gets_its_tip :
  (forall cause text,
     message_text (Unable_to_read_API_key cause) = Some text ->
     tip_for text = Some Tip_key) /\
  (forall text,
     message_text Invalid_API_key = Some text -> tip_for text = Some Tip_key) /\
  (forall chainId text,
     message_text (Unsupported_chain_ID chainId) = Some text ->
     tip_for text = Some Tip_chains) /\
  (forall address address' text,
     prepare_address address = Some address' ->
     message_text (EOA_address address') = Some text ->
     tip_for text = Some Tip_wallet) /\
  (forall address address' text,
     prepare_address address = Some address' ->
     message_text (Unverified_contract address') = Some text ->
     tip_for text = Some Tip_unverified) /\
  (forall text,
     message_text Rate_limit_exceeded = Some text \/
     message_text No_contract_found = Some text ->
     tip_for text = None).
Proof.
  repeat split.
  - intros cause text E. apply some_eq in E. subst text. unfold tip_for.
    now rewrite includes_in_prefix.
  - intros text E. now injection E as <-.
  - intros chainId text. cbn [message_text].
    destruct (Z.abs chainId <? 10 ^ 21)%Z; [|discriminate].
    intros E. apply some_eq in E. subst text. unfold tip_for.
    rewrite (includes_needs (ch "P")), (includes_needs (ch "v")), (includes_needs (ch "O")).
    + now rewrite includes_in_prefix.
    + cbn; auto.
    + apply not_in_chain_text; try easy; intros H; not_in_literal H.
    + cbn; auto.
    + apply not_in_chain_text; try easy; intros H; not_in_literal H.
    + cbn; auto.
    + apply not_in_chain_text; try easy; intros H; not_in_literal H.
  - intros address address' text Hp E. apply some_eq in E. subst text. unfold tip_for.
    rewrite (includes_needs (ch "P")), (includes_needs (ch "U")).
    + now rewrite includes_in_prefix.
    + cbn; auto.
    + apply (not_in_address_text _ _ _ _ Hp); try easy. intros H; not_in_literal H.
    + cbn; auto.
    + apply (not_in_address_text _ _ _ _ Hp); try easy. intros H; not_in_literal H.
  - intros address address' text Hp E. apply some_eq in E. subst text. unfold tip_for.
    rewrite (includes_needs (ch "P")).
    + now rewrite includes_in_prefix.
    + cbn; auto.
    + apply (not_in_address_text _ _ _ _ Hp); try easy. intros H; not_in_literal H.
  - intros text [E|E]; now injection E as <-.
Qed.

Lemma each_failure_gets_its_tip_witness :
  tip_for (lit "EOA address: 0xcA11bde05977b3631167028862bE2a173976CA11") = Some Tip_wallet.
Proof.
  destruct each_failure_gets_its_tip as (_ & _ & _ & H & _).
  exact (H (lit "cA11bde05977b3631167028862bE2a173976CA11")
           (lit "0xcA11bde05977b3631167028862bE2a173976CA11") _ eq_refl eq_refl).
Defined.

(* ================================================================== *)
(** * An explicit key *)
(* ================================================================== *)

Lemma never_bind {A B} bad (p : prog A) (f : A -> prog B) :
  never bad p -> (forall a, never bad (f a)) -> never bad (bind p f).
Proof.
  intros Hp Hf. induction Hp; cbn [bind]; try (constructor; assumption).
  apply Hf.
Qed.

Lemma never_catch {A} bad (p : prog A) (h : exn -> prog A) :
  never bad p -> (forall e, never bad (h e)) -> never bad (catch p h).
Proof.
  intros Hp Hh. induction Hp; cbn [catch]; try (constructor; assumption).
  apply Hh.
Qed.

Lemma never_lift {A} bad (c : completion A) : never bad (lift c).
Proof. destruct c; constructor. Qed.

Lemma never_run {A} bad (p : prog A) :
  never bad p -> forall w t, existsb bad (fst (run w t p)) = false.
Proof.
  induction 1 as [a|e|k Hb _ IH|q k Hb _ IH|d k Hb _ IH|d x k Hb _ IH];
    intros w t; cbn [run]; try reflexivity.
  - specialize (IH (key_file w t) w (S t)).
    destruct (run w (S t) (k (key_file w t))). cbn in *. now rewrite Hb.
  - specialize (IH (http w t q) w (S t)).
    destruct (run w (S t) (k (http w t q))). cbn in *. now rewrite Hb.
  - specialize (IH (mkdir w t d) w (S t)).
    destruct (run w (S t) (k (mkdir w t d))). cbn in *. now rewrite Hb.
  - specialize (IH (write_file w t d x) w (S t)).
    destruct (run w (S t) (k (write_file w t d x))). cbn in *. now rewrite Hb.
Qed.

Ltac never_pure :=
  repeat first
    [ apply never_ret
    | apply never_throw
    | apply never_lift
    | progress cbn [lift bind]
    | match goal with
      | |- never _ (bind (lift ?c) _) => destruct c
      | |- never _ (bind (bind (lift ?c) _) _) => destruct c
      | |- never _ (bind (if ?b then _ else _) _) => destruct b
      | |- never _ (if ?b then _ else _) => destruct b
      end ].

Lemma isContract_with_key c chainId address :
  truthy (apiKey c) = true -> never is_key_read (isContract c chainId address).
Proof.
  intros Hkey. unfold isContract, getApiKey. rewrite Hkey. cbn [bind].
  apply never_catch; [|intros e; apply never_ret].
  unfold axios_get. cbn [bind]. apply never_http; [reflexivity|]. intros r. never_pure.
Qed.

(** With an explicit key the key file is never read, whatever the
    answers of the transport are: neither for the getsourcecode request
    nor for the probe. *)
Theorem explicit_key_never_reads_key_file
        (w : world) (c : client) (chainId : Z) (address : jsstring) :
  truthy (apiKey c) = true ->
  existsb is_key_read (trace_of w (fetchContractSource c chainId address)) = false.
Proof.
  intros Hkey. apply never_run.
  unfold fetchContractSource, getApiKey. rewrite Hkey. cbn [bind].
  apply never_bind; [apply never_lift|]. intros _.
  apply never_catch; [|intros e; destruct e as [| |[[s st]|]| |]; apply never_throw].
  unfold axios_get. cbn [bind]. apply never_http; [reflexivity|]. intros r.
  destruct r as [data|e]; cbn [lift bind]; [|apply never_throw].
  destruct (get data (lit "status")) as [status|e]; cbn [lift bind]; [|apply never_throw].
  destruct (negb (is_string status (lit "1"))); [unfold throw_api_failure; never_pure|].
  destruct (get data (lit "result")) as [result|e]; cbn [lift bind]; [|apply never_throw].
  destruct (truthy result); cbn [negb orb lift bind]; [|apply never_throw].
  destruct (get result (lit "length")) as [len|e]; cbn [lift bind]; [|apply never_throw].
  destruct (is_zero len); [apply never_throw|].
  destruct (get result (lit "0")) as [contract|e]; cbn [lift bind]; [|apply never_throw].
  destruct (get contract (lit "SourceCode")) as [sourceCode|e]; cbn [lift bind];
    [|apply never_throw].
  destruct (negb (truthy sourceCode) || is_string sourceCode (lit "")); [|apply never_lift].
  apply never_bind; [now apply isContract_with_key|].
  intros b. destruct (negb b); apply never_throw.
Qed.

Lemma explicit_key_never_reads_key_file_witness :
  existsb is_key_read
    (trace_of (make_world (FsOk (lit "FILEKEY")) (fun _ _ => Abrupt (AxiosError None)))
              (fetchContractSource {| apiKey := VStr (lit "KEY") |} 1 (lit "0xabc")))
  = false.
Proof.
  apply explicit_key_never_reads_key_file. reflexivity.
Defined.
